(** * Player/app/music_server.py: scanner, extractor and search

    A shallow embedding of the metadata pipeline of the local music player:
    [MusicScanner.scan_directory], [MusicScanner._extract_track_info], the
    three [_get_*_tag] helpers, and the routes [scan_library] and
    [search_tracks].

    Modelling conventions.
    - A Python [str] is a [string] whose characters are the code points
      U+0000..U+00FF; [encode] is UTF-8 on that range.
    - A [pathlib.Path] is the list of its [parts]; an absolute POSIX path
      starts with the part ["/"].
    - [hashlib.md5] is RFC 1321 on 32-bit words kept in [Z].
    - A float is the rational it denotes; [round(x, 2)] is rounding of that
      rational to the nearest hundredth, ties to even.
    - What [mutagen.File] makes of a file's bytes is stored in the file's
      node of the file-system tree, so that the extractor is a function of
      the path and of the tree.
    - Exceptions are values of [outcome]; the logger is a list of records
      threaded through the [py] monad.
    - In the file-system tree [os.stat] fails for missing entries only;
      module [Os] adds the other errors of the call to the existence test
      of the scanner, which may then raise. *)

From Stdlib Require Import ZArith NArith QArith List String Ascii Bool Lia.
Import ListNotations.

Local Open Scope Z_scope.

(* ================================================================= *)
(** ** hashlib.md5 *)

Module Md5.

Definition mask32 : Z := 0xFFFFFFFF.
Definition add32 (x y : Z) : Z := Z.land (x + y) mask32.
Definition not32 (x : Z) : Z := Z.lxor x mask32.
Definition rotl32 (x c : Z) : Z :=
  Z.lor (Z.land (Z.shiftl x c) mask32) (Z.shiftr x (32 - c)).

Definition shift_amounts : list Z :=
  [7; 12; 17; 22; 7; 12; 17; 22; 7; 12; 17; 22; 7; 12; 17; 22;
   5;  9; 14; 20; 5;  9; 14; 20; 5;  9; 14; 20; 5;  9; 14; 20;
   4; 11; 16; 23; 4; 11; 16; 23; 4; 11; 16; 23; 4; 11; 16; 23;
   6; 10; 15; 21; 6; 10; 15; 21; 6; 10; 15; 21; 6; 10; 15; 21].

(** [sine_table[i] = floor (2^32 * abs (sin (i + 1)))]. *)
Definition sine_table : list Z :=
  [0xd76aa478; 0xe8c7b756; 0x242070db; 0xc1bdceee;
   0xf57c0faf; 0x4787c62a; 0xa8304613; 0xfd469501;
   0x698098d8; 0x8b44f7af; 0xffff5bb1; 0x895cd7be;
   0x6b901122; 0xfd987193; 0xa679438e; 0x49b40821;
   0xf61e2562; 0xc040b340; 0x265e5a51; 0xe9b6c7aa;
   0xd62f105d; 0x02441453; 0xd8a1e681; 0xe7d3fbc8;
   0x21e1cde6; 0xc33707d6; 0xf4d50d87; 0x455a14ed;
   0xa9e3e905; 0xfcefa3f8; 0x676f02d9; 0x8d2a4c8a;
   0xfffa3942; 0x8771f681; 0x6d9d6122; 0xfde5380c;
   0xa4beea44; 0x4bdecfa9; 0xf6bb4b60; 0xbebfbc70;
   0x289b7ec6; 0xeaa127fa; 0xd4ef3085; 0x04881d05;
   0xd9d4d039; 0xe6db99e5; 0x1fa27cf8; 0xc4ac5665;
   0xf4292244; 0x432aff97; 0xab9423a7; 0xfc93a039;
   0x655b59c3; 0x8f0ccc92; 0xffeff47d; 0x85845dd1;
   0x6fa87e4f; 0xfe2ce6e0; 0xa3014314; 0x4e0811a1;
   0xf7537e82; 0xbd3af235; 0x2ad7d2bb; 0xeb86d391].

Record state := mkState { sa : Z; sb : Z; sc : Z; sd : Z }.

Definition init_state : state :=
  mkState 0x67452301 0xefcdab89 0x98badcfe 0x10325476.

(** The mixing function of operation [i] and the index of the message word
    it consumes. *)
Definition round_fun (i : Z) (b c d : Z) : Z * Z :=
  if i <? 16 then (Z.lor (Z.land b c) (Z.land (not32 b) d), i)
  else if i <? 32 then
    (Z.lor (Z.land d b) (Z.land (not32 d) c), (5 * i + 1) mod 16)
  else if i <? 48 then (Z.lxor (Z.lxor b c) d, (3 * i + 5) mod 16)
  else (Z.lxor c (Z.lor b (not32 d)), (7 * i) mod 16).

Definition step (m : list Z) (st : state) (i : Z) : state :=
  let '(f, g) := round_fun i (sb st) (sc st) (sd st) in
  let f' := add32 (add32 (add32 f (sa st)) (nth (Z.to_nat i) sine_table 0))
                  (nth (Z.to_nat g) m 0) in
  mkState (sd st)
          (add32 (sb st) (rotl32 f' (nth (Z.to_nat i) shift_amounts 0)))
          (sb st) (sc st).

Definition indices : list Z := map Z.of_nat (seq 0 64).

Definition compress (st : state) (m : list Z) : state :=
  let r := fold_left (step m) indices st in
  mkState (add32 (sa st) (sa r)) (add32 (sb st) (sb r))
          (add32 (sc st) (sc r)) (add32 (sd st) (sd r)).

(** Little-endian packing of bytes into 32-bit words. *)
Fixpoint words_of_bytes (bs : list Z) : list Z :=
  match bs with
  | b0 :: b1 :: b2 :: b3 :: rest =>
      (b0 + Z.shiftl b1 8 + Z.shiftl b2 16 + Z.shiftl b3 24)
        :: words_of_bytes rest
  | _ => []
  end.

(** Blocks of sixteen words; [n] bounds the number of blocks. *)
Fixpoint chunks (n : nat) (ws : list Z) : list (list Z) :=
  match n with
  | O => []
  | S n' =>
      match ws with
      | [] => []
      | _ => firstn 16 ws :: chunks n' (skipn 16 ws)
      end
  end.

Definition le_bytes (n : nat) (x : Z) : list Z :=
  map (fun k => Z.land (Z.shiftr x (8 * Z.of_nat k)) 0xFF) (seq 0 n).

Definition pad (msg : list Z) : list Z :=
  let len := Z.of_nat (List.length msg) in
  let zeros := Z.to_nat ((55 - len) mod 64) in
  (msg ++ [0x80] ++ repeat 0 zeros
       ++ le_bytes 8 (Z.land (8 * len) 0xFFFFFFFFFFFFFFFF))%list.

Definition digest_state (msg : list Z) : state :=
  let ws := words_of_bytes (pad msg) in
  fold_left compress (chunks (List.length ws) ws) init_state.

Definition digest (msg : list Z) : list Z :=
  let st := digest_state msg in
  (le_bytes 4 (sa st) ++ le_bytes 4 (sb st)
     ++ le_bytes 4 (sc st) ++ le_bytes 4 (sd st))%list.

Definition hex_digits : list ascii := list_ascii_of_string "0123456789abcdef".

Definition hex_digit (n : Z) : ascii := nth (Z.to_nat n) hex_digits "0"%char.

Definition hex_byte (b : Z) : list ascii :=
  [hex_digit (Z.shiftr b 4); hex_digit (Z.land b 0xF)].

Definition hexdigest (msg : list Z) : string :=
  string_of_list_ascii (flat_map hex_byte (digest msg)).

End Md5.

(* ================================================================= *)
(** ** Python strings *)

Module PyStr.

Local Open Scope nat_scope.

Definition code (c : ascii) : nat := nat_of_ascii c.

(** [str.lower] and [str.upper], character by character.  On U+0000..U+00FF
    the lower-case mapping moves [A-Z] and U+00C0..U+00DE (without the
    multiplication sign U+00D7) up by 32.  The upper-case mapping is its
    inverse on that range; the source applies it to ASCII literals only.
    Beyond U+00FF [str.lower] is not a map of characters (the capital
    sigma depends on its place in the word): what is proved from the
    character-wise form is stated for strings of the range. *)
Definition lower_char (c : ascii) : ascii :=
  let n := code c in
  if ((65 <=? n) && (n <=? 90))
     || ((192 <=? n) && (n <=? 222) && negb (n =? 215))
  then ascii_of_nat (n + 32) else c.

Definition upper_char (c : ascii) : ascii :=
  let n := code c in
  if ((97 <=? n) && (n <=? 122))
     || ((224 <=? n) && (n <=? 254) && negb (n =? 247))
  then ascii_of_nat (n - 32) else c.

Fixpoint lower (s : string) : string :=
  match s with
  | EmptyString => EmptyString
  | String c s' => String (lower_char c) (lower s')
  end.

Fixpoint upper (s : string) : string :=
  match s with
  | EmptyString => EmptyString
  | String c s' => String (upper_char c) (upper s')
  end.

(** [sub in s]. *)
Fixpoint contains (sub s : string) : bool :=
  String.prefix sub s ||
  match s with
  | EmptyString => false
  | String _ s' => contains sub s'
  end.

(** Truth value of a string: [bool(s)]. *)
Definition truthy (s : string) : bool :=
  match s with EmptyString => false | _ => true end.

(** [s.rfind(c)], [None] standing for -1. *)
Fixpoint rfind (c : ascii) (s : string) : option nat :=
  match s with
  | EmptyString => None
  | String a s' =>
      match rfind c s' with
      | Some i => Some (S i)
      | None => if Ascii.eqb a c then Some 0 else None
      end
  end.

(** [s[:n]] and [s[n:]]. *)
Fixpoint take (n : nat) (s : string) : string :=
  match n, s with
  | S n', String c s' => String c (take n' s')
  | _, _ => EmptyString
  end.

Fixpoint drop (n : nat) (s : string) : string :=
  match n, s with
  | S n', String _ s' => drop n' s'
  | _, _ => s
  end.

(** [sep.join(l)]. *)
Fixpoint join (sep : string) (l : list string) : string :=
  match l with
  | [] => EmptyString
  | [x] => x
  | x :: r => (x ++ sep ++ join sep r)%string
  end.

(** [s.encode()]: UTF-8. *)
Definition encode_char (c : ascii) : list Z :=
  let n := Z.of_nat (code c) in
  if (n <? 128)%Z then [n]
  else [Z.lor 0xC0 (Z.shiftr n 6); Z.lor 0x80 (Z.land n 0x3F)].

Definition encode (s : string) : list Z :=
  flat_map encode_char (list_ascii_of_string s).

End PyStr.

(* ================================================================= *)
(** ** pathlib *)

Module Pathlib.

Import PyStr.
Local Open Scope string_scope.
Local Open Scope nat_scope.

(** [PurePosixPath.parts]. *)
Definition path := list string.

Definition is_absolute (p : path) : bool :=
  match p with
  | root :: _ => String.eqb root "/"
  | [] => false
  end.

(** [str(p)]. *)
Definition path_str (p : path) : string :=
  match p with
  | [] => "."
  | root :: rest =>
      if String.eqb root "/" then ("/" ++ join "/" rest)%string else join "/" p
  end.

(** [p.name]: the last part, unless the path is the root or empty. *)
Definition name (p : path) : string :=
  if (List.length p =? (if is_absolute p then 1 else 0)) then ""
  else last p "".

(** The test [0 < i < len(name) - 1] shared by [suffix] and [stem]. *)
Definition suffix_index (nm : string) : option nat :=
  match rfind "."%char nm with
  | Some i => if (0 <? i) && (i <? String.length nm - 1) then Some i else None
  | None => None
  end.

Definition suffix (p : path) : string :=
  match suffix_index (name p) with
  | Some i => drop i (name p)
  | None => ""
  end.

Definition stem (p : path) : string :=
  match suffix_index (name p) with
  | Some i => take i (name p)
  | None => name p
  end.

Fixpoint starts_with (pre l : list string) : bool :=
  match pre, l with
  | [], _ => true
  | x :: pre', y :: l' => String.eqb x y && starts_with pre' l'
  | _ :: _, [] => false
  end.

(** Whether [p.relative_to(base)] is defined: the parts of [base] begin
    those of [p]; an absolute path is not relative to the empty path. *)
Definition is_relative_to (p base : path) : bool :=
  match base with
  | [] => negb (is_absolute p)
  | _ => starts_with base p
  end.

End Pathlib.

(* ================================================================= *)
(** ** Exceptions, the logger and numbers *)

Module Py.

Import Pathlib.

(** The exception classes that occur; all derive from [Exception]. *)
Inductive exn := MutagenError | OSError | IndexError | ValueError.

Inductive outcome (A : Type) :=
| Ret (a : A)
| Raise (e : exn).
Arguments Ret {A} a.
Arguments Raise {A} e.

Definition obind {A B} (m : outcome A) (k : A -> outcome B) : outcome B :=
  match m with
  | Ret a => k a
  | Raise e => Raise e
  end.

Inductive level := INFO | WARNING | ERROR.

(** The five log lines of the scanner, by their arguments. *)
Inductive message :=
| DirectoryMissing (directory : path)
| ScanStarted (directory : path)
| ReadFailed (file_path : path) (e : exn)
| ScanFinished (found : nat)
| ExtractFailed (file_path : path) (e : exn).

Record log_record := mkLog { log_level : level; log_message : message }.

(** A computation that may raise and that appends to the log. *)
Definition py (A : Type) := list log_record -> outcome A * list log_record.

Definition ret {A} (a : A) : py A := fun l => (Ret a, l).

Definition bind {A B} (m : py A) (k : A -> py B) : py B :=
  fun l =>
    match m l with
    | (Ret a, l') => k a l'
    | (Raise e, l') => (Raise e, l')
    end.

Definition lift {A} (m : outcome A) : py A := fun l => (m, l).

Definition logger (lv : level) (m : message) : py unit :=
  fun l => (Ret tt, (l ++ [mkLog lv m])%list).

(** [try: body except Exception as e: handler e]. *)
Definition try_except {A} (body : py A) (handler : exn -> py A) : py A :=
  fun l =>
    match body l with
    | (Ret a, l') => (Ret a, l')
    | (Raise e, l') => handler e l'
    end.

(** The value a computation returns when started on an empty log. *)
Definition run {A} (m : py A) : outcome A := fst (m []).

Declare Scope outcome_scope.
Delimit Scope outcome_scope with outcome.
Declare Scope py_scope.
Delimit Scope py_scope with py.

Notation "x <- m ;; k" := (obind m (fun x => k))
  (at level 100, m at next level, right associativity) : outcome_scope.
Notation "' pat <- m ;; k" := (obind m (fun x => match x with pat => k end))
  (at level 100, pat pattern, m at next level, right associativity)
  : outcome_scope.
Notation "x <- m ;; k" := (bind m (fun x => k))
  (at level 100, m at next level, right associativity) : py_scope.
Notation "m ;;; k" := (bind m (fun _ => k))
  (at level 100, right associativity) : py_scope.

(** Nearest integer to a rational, ties to even. *)
Definition round_half_even (q : Q) : Z :=
  let n := Qnum q in
  let d := Z.pos (Qden q) in
  let f := (n / d)%Z in
  match (2 * (n mod d) ?= d)%Z with
  | Lt => f
  | Gt => (f + 1)%Z
  | Eq => if Z.even f then f else (f + 1)%Z
  end.

(** [round(x, 2)]: the hundredth nearest to [x], ties to even; the float
    Python returns is the one nearest to this rational. *)
Definition round2 (x : Q) : Q := round_half_even (x * 100) # 100.

End Py.

(* ================================================================= *)
(** ** mutagen file objects *)

Module Mutagen.

(** The tags of a file object are seen through [key in tags], [tags[key]]
    and [tags.items()] only, so they are kept as the list of their items.
    A tag value is a list, whose elements are kept by their [str], or any
    other object, kept by its [str]. *)
Inductive tag_value :=
| VList (elements : list string)
| VObj (text : string).

(** The class of the object returned by [mutagen.File], as far as the
    [isinstance] tests of the extractor tell. *)
Inductive container := MP3 | MP4 | FLAC | Other.

(** [info.length] is [None] when the attribute is missing. *)
Record stream_info := mkInfo { info_length : option Q }.

(** [info] is [None] when the attribute is missing or false; [tags] is
    [None] for Python's [None], else the items of the mapping in their
    iteration order. *)
Record audio_file := mkAudio {
  kind : container;
  info : option stream_info;
  tags : option (list (string * tag_value))
}.

(** [tags.items()] of [tags or {}]. *)
Definition tag_items (af : audio_file) : list (string * tag_value) :=
  match tags af with
  | Some l => l
  | None => []
  end.

(** [bool(audio_file.tags)]. *)
Definition tags_truthy (af : audio_file) : bool :=
  match tag_items af with
  | [] => false
  | _ :: _ => true
  end.

(** [tags[key]] when [key in tags]. *)
Fixpoint dict_get (key : string) (l : list (string * tag_value))
  : option tag_value :=
  match l with
  | [] => None
  | (k, v) :: r => if String.eqb k key then Some v else dict_get key r
  end.

End Mutagen.

(* ================================================================= *)
(** ** The file-system tree *)

Module Fs.

Import Pathlib Py Mutagen.

(** A node carries the size a [stat] call reports ([None] when the call
    fails).  A file carries what [mutagen.File] makes of it: an exception,
    [None] for an unrecognised type, or a file object. *)
#[local] Set Warnings "-register-all".
Inductive node :=
| File (st_size : option N) (parsed : outcome (option audio_file))
| Dir (st_size : option N) (entries : list (string * node)).

Record filesystem := mkFs { fs_root : node; fs_cwd : node }.

Fixpoint walk (p : list string) (n : node) {struct p} : option node :=
  match p with
  | [] => Some n
  | x :: r =>
      match n with
      | File _ _ => None
      | Dir _ es =>
          (fix find (l : list (string * node)) : option node :=
             match l with
             | [] => None
             | (k, c) :: l' => if String.eqb k x then walk r c else find l'
             end) es
      end
  end.

Definition resolve (fs : filesystem) (p : path) : option node :=
  match p with
  | [] => Some (fs_cwd fs)
  | x :: r => if String.eqb x "/" then walk r (fs_root fs)
              else walk p (fs_cwd fs)
  end.

(** [Path.exists()] where [os.stat] fails for missing entries only: the
    path is there or it is not.  [Os.exists_] below is the test on a system
    where the call may fail otherwise. *)
Definition path_exists (fs : filesystem) (p : path) : bool :=
  match resolve fs p with
  | Some _ => true
  | None => false
  end.

(** [Path.rglob('*')] below a node: the entries of the directory, then the
    same for each sub-directory in turn. *)
Fixpoint rglob_node (base : path) (n : node) {struct n} : list path :=
  match n with
  | File _ _ => []
  | Dir _ es =>
      (map (fun e => base ++ [fst e]) es ++
       (fix below (l : list (string * node)) : list path :=
          match l with
          | [] => []
          | (k, c) :: l' => rglob_node (base ++ [k]) c ++ below l'
          end) es)%list
  end.

Definition rglob (fs : filesystem) (p : path) : list path :=
  match resolve fs p with
  | Some n => rglob_node p n
  | None => []
  end.

(** [file_path.stat().st_size]. *)
Definition stat_size (fs : filesystem) (p : path) : outcome N :=
  match resolve fs p with
  | Some (File (Some n) _) | Some (Dir (Some n) _) => Ret n
  | _ => Raise OSError
  end.

(** [mutagen.File(file_path)]: a missing file or a directory cannot be
    opened. *)
Definition mutagen_File (fs : filesystem) (p : path)
  : outcome (option audio_file) :=
  match resolve fs p with
  | Some (File _ parsed) => parsed
  | _ => Raise MutagenError
  end.

End Fs.

(* ================================================================= *)
(** ** Track records *)

Module Track.

(** The dictionary returned by the extractor, by its keys. *)
Record t := mk {
  id : string;
  title : string;
  artist : string;
  album : string;
  filename : string;
  path : string;
  relative_path : string;
  duration : Q;
  size : Z;
  format : string
}.

End Track.

(* ================================================================= *)
(** ** class MusicScanner *)

Module MusicScanner.

Import PyStr Pathlib Py Mutagen Fs.
Local Open Scope string_scope.

Definition SUPPORTED_FORMATS : list string :=
  [".mp3"; ".mp4"; ".m4a"; ".flac"; ".ogg"; ".wav"].

(** [file_path.suffix.lower() in cls.SUPPORTED_FORMATS]. *)
Definition supported (file_path : path) : bool :=
  existsb (String.eqb (lower (suffix file_path))) SUPPORTED_FORMATS.

(** [str(value[0]) if isinstance(value, list) and value else str(value)];
    the only list that reaches [str(value)] is the empty one. *)
Definition first_or_str (value : tag_value) : string :=
  match value with
  | VList (x :: _) => x
  | VList [] => "[]"
  | VObj s => s
  end.

Definition _get_id3_tag (audio : audio_file) (tag_name : string)
  : option string :=
  if tags_truthy audio then
    match dict_get tag_name (tag_items audio) with
    | Some value => Some (first_or_str value)
    | None => None
    end
  else None.

Definition _get_mp4_tag (audio : audio_file) (tag_name : string)
  : option string :=
  if tags_truthy audio then
    match dict_get tag_name (tag_items audio) with
    | Some value => Some (first_or_str value)
    | None => None
    end
  else None.

Definition _get_vorbis_tag (audio : audio_file) (tag_name : string)
  : option string :=
  if tags_truthy audio then
    match dict_get (upper tag_name) (tag_items audio) with
    | Some value => Some (first_or_str value)
    | None => None
    end
  else None.

(** [x or default] for [x] a string or [None]. *)
Definition py_or (x : option string) (default : string) : string :=
  match x with
  | Some s => if truthy s then s else default
  | None => default
  end.

(** The MP4 atom names start with the copyright sign U+00A9. *)
Definition copyright_sign : ascii := ascii_of_nat 169.
Definition mp4_nam : string := String copyright_sign "nam".
Definition mp4_ART : string := String copyright_sign "ART".
Definition mp4_alb : string := String copyright_sign "alb".

(** [str(value[0] if isinstance(value, list) else value)]. *)
Definition first_elem (value : tag_value) : outcome string :=
  match value with
  | VList (x :: _) => Ret x
  | VList [] => Raise IndexError
  | VObj s => Ret s
  end.

(** The title, artist and album variables of the extractor. *)
Record names := mkNames { n_title : string; n_artist : string; n_album : string }.

(** One iteration of the loop over [tags.items()]. *)
Definition generic_step (st : names) (kv : string * tag_value) : outcome names :=
  let key_lower := lower (fst kv) in
  if contains "title" key_lower then
    (v <- first_elem (snd kv) ;; Ret (mkNames v (n_artist st) (n_album st)))%outcome
  else if contains "artist" key_lower then
    (v <- first_elem (snd kv) ;; Ret (mkNames (n_title st) v (n_album st)))%outcome
  else if contains "album" key_lower then
    (v <- first_elem (snd kv) ;; Ret (mkNames (n_title st) (n_artist st) v))%outcome
  else Ret st.

Fixpoint generic_loop (items : list (string * tag_value)) (st : names)
  : outcome names :=
  match items with
  | [] => Ret st
  | kv :: rest => (st' <- generic_step st kv ;; generic_loop rest st')%outcome
  end.

(** The branch on the class of the file object. *)
Definition read_tags (audio : audio_file) (st : names) : outcome names :=
  match kind audio with
  | MP3 =>
      Ret (mkNames (py_or (_get_id3_tag audio "TIT2") (n_title st))
                   (py_or (_get_id3_tag audio "TPE1") (n_artist st))
                   (py_or (_get_id3_tag audio "TALB") (n_album st)))
  | MP4 =>
      Ret (mkNames (py_or (_get_mp4_tag audio mp4_nam) (n_title st))
                   (py_or (_get_mp4_tag audio mp4_ART) (n_artist st))
                   (py_or (_get_mp4_tag audio mp4_alb) (n_album st)))
  | FLAC =>
      Ret (mkNames (py_or (_get_vorbis_tag audio "TITLE") (n_title st))
                   (py_or (_get_vorbis_tag audio "ARTIST") (n_artist st))
                   (py_or (_get_vorbis_tag audio "ALBUM") (n_album st)))
  | Other => generic_loop (tag_items audio) st
  end.

(** [getattr(audio_file.info, 'length', 0)] under the test on [info]. *)
Definition read_duration (audio : audio_file) (duration : Q) : Q :=
  match info audio with
  | Some i =>
      match info_length i with
      | Some l => l
      | None => 0%Q
      end
  | None => duration
  end.

(** [p.relative_to(base)]. *)
Definition relative_to (p base : path) : outcome path :=
  if is_relative_to p base then Ret (skipn (List.length base) p)
  else Raise ValueError.

Section Extractor.

Variable MUSIC_DIR : path.
Variable fs : filesystem.

(** The body of the [try] block of [_extract_track_info].  Every string of
    this development encodes, so that the first statement cannot raise: a
    file name whose bytes are not UTF-8 (a [str] with lone surrogates) is
    outside its range, and the statements about the extractor are about
    paths whose string encodes. *)
Definition extract_body (file_path : path) : outcome Track.t :=
  (let file_id := Md5.hexdigest (encode (path_str file_path)) in
   audio_file <- mutagen_File fs file_path ;;
   let st := mkNames (stem file_path) "Unknown Artist" "Unknown Album" in
   let duration := 0%Q in
   r <- match audio_file with
        | Some audio =>
            let duration := read_duration audio duration in
            st' <- read_tags audio st ;;
            Ret (st', duration)
        | None => Ret (st, duration)
        end ;;
   let '(st, duration) := r in
   rel <- relative_to file_path MUSIC_DIR ;;
   let rounded := round2 duration in
   st_size <- stat_size fs file_path ;;
   Ret (Track.mk file_id (n_title st) (n_artist st) (n_album st)
                 (name file_path) (path_str file_path) (path_str rel)
                 rounded (Z.of_N st_size)
                 (drop 1 (lower (suffix file_path)))))%outcome.

Definition _extract_track_info (file_path : path) : py (option Track.t) :=
  try_except
    (t <- lift (extract_body file_path) ;; ret (Some t))%py
    (fun e => (logger ERROR (ExtractFailed file_path e) ;;; ret None)%py).

(** The [for] loop of [scan_directory]; [tracks] is the list built so far.
    A returned dictionary is never empty, so [if track_info] tests for
    [None]. *)
Fixpoint scan_loop (files : list path) (tracks : list Track.t)
  : py (list Track.t) :=
  match files with
  | [] => ret tracks
  | file_path :: rest =>
      if supported file_path then
        (tracks' <-
           try_except
             (track_info <- _extract_track_info file_path ;;
              ret (match track_info with
                   | Some t => (tracks ++ [t])%list
                   | None => tracks
                   end))
             (fun e => logger WARNING (ReadFailed file_path e) ;;; ret tracks) ;;
         scan_loop rest tracks')%py
      else scan_loop rest tracks
  end.

(** [scan_directory] where the existence test returns what the tree shows;
    [Os.scan_directory_on] is the scan on a system where it may raise. *)
Definition scan_directory (directory : path) : py (list Track.t) :=
  let tracks := [] in
  let music_path := directory in
  if negb (path_exists fs music_path) then
    (logger WARNING (DirectoryMissing directory) ;;; ret tracks)%py
  else
    (logger INFO (ScanStarted directory) ;;;
     tracks <- scan_loop (rglob fs music_path) tracks ;;
     logger INFO (ScanFinished (List.length tracks)) ;;;
     ret tracks)%py.

End Extractor.

End MusicScanner.

(* ================================================================= *)
(** ** The routes *)

Module Routes.

Import PyStr Pathlib Py Fs.

(** The global [music_library]. *)
Record server := mkServer { music_library : list Track.t }.

(** [/api/scan]: the new state and the [total] of the response. *)
Definition scan_library (MUSIC_DIR : path) (fs : filesystem) (st : server)
  : py (server * nat) :=
  (tracks <- MusicScanner.scan_directory MUSIC_DIR fs MUSIC_DIR ;;
   ret (mkServer tracks, List.length tracks))%py.

(** The condition of the list comprehension of [search_tracks]. *)
Definition matches (query : string) (track : Track.t) : bool :=
  contains query (lower (Track.title track))
  || contains query (lower (Track.artist track))
  || contains query (lower (Track.album track)).

(** [/api/search]: [q] is the request argument, [None] when absent; the
    result is the [tracks] list of the response. *)
Definition search_tracks (q : option string) (st : server) : list Track.t :=
  let query := lower (match q with Some s => s | None => EmptyString end) in
  if negb (truthy query) then music_library st
  else filter (matches query) (music_library st).

End Routes.

(* ================================================================= *)
(** ** Vocabulary of the specification *)

Module Spec.

Import PyStr Pathlib Py Mutagen Fs MusicScanner.
Local Open Scope string_scope.

(** The three descriptive fields of a record. *)
Inductive field := FTitle | FArtist | FAlbum.

Definition field_eqb (f g : field) : bool :=
  match f, g with
  | FTitle, FTitle | FArtist, FArtist | FAlbum, FAlbum => true
  | _, _ => false
  end.

Definition get (f : field) (t : Track.t) : string :=
  match f with
  | FTitle => Track.title t
  | FArtist => Track.artist t
  | FAlbum => Track.album t
  end.

Definition get_name (f : field) (st : names) : string :=
  match f with
  | FTitle => n_title st
  | FArtist => n_artist st
  | FAlbum => n_album st
  end.

(** The defaults of the extractor: file name without suffix, and the two
    literals. *)
Definition placeholders (file_path : path) : names :=
  mkNames (stem file_path) "Unknown Artist" "Unknown Album".

Definition placeholder (file_path : path) (f : field) : string :=
  get_name f (placeholders file_path).

Definition needle (f : field) : string :=
  match f with
  | FTitle => "title"
  | FArtist => "artist"
  | FAlbum => "album"
  end.

(** A key matches a field when its lower-cased form contains the field's
    substring. *)
Definition key_matches (f : field) (key : string) : bool :=
  contains (needle f) (lower key).

(** The first item whose key matches the field. *)
Definition first_match (f : field) (items : list (string * tag_value))
  : option (string * tag_value) :=
  find (fun kv => key_matches f (fst kv)) items.

(** The field a key is taken for: the first of title, artist, album whose
    substring it contains. *)
Definition field_of_key (key : string) : option field :=
  if key_matches FTitle key then Some FTitle
  else if key_matches FArtist key then Some FArtist
  else if key_matches FAlbum key then Some FAlbum
  else None.

Definition taken_for (f : field) (key : string) : bool :=
  match field_of_key key with
  | Some g => field_eqb f g
  | None => false
  end.

(** The last item, in iteration order, whose key is taken for the field. *)
Fixpoint last_match (f : field) (items : list (string * tag_value))
  : option (string * tag_value) :=
  match items with
  | [] => None
  | kv :: rest =>
      match last_match f rest with
      | Some x => Some x
      | None => if taken_for f (fst kv) then Some kv else None
      end
  end.

(** The fixed tag key of a named container family ([Other] has none; the
    statements below use [fixed_key] for the three named classes only). *)
Definition fixed_key (c : container) (f : field) : string :=
  match c, f with
  | MP3, FTitle => "TIT2"
  | MP3, FArtist => "TPE1"
  | MP3, FAlbum => "TALB"
  | MP4, FTitle => mp4_nam
  | MP4, FArtist => mp4_ART
  | MP4, FAlbum => mp4_alb
  | (FLAC | Other), FTitle => "TITLE"
  | (FLAC | Other), FArtist => "ARTIST"
  | (FLAC | Other), FAlbum => "ALBUM"
  end.

(** A string of white space only (the empty string included). *)
Definition is_space (c : ascii) : bool :=
  let n := code c in
  ((9 <=? n)%nat && (n <=? 13)%nat) || (n =? 32)%nat.

Fixpoint blank (s : string) : bool :=
  match s with
  | EmptyString => true
  | String c s' => is_space c && blank s'
  end.

(** What [_extract_track_info] returns, [None] for Python's [None]. *)
Definition extracted (MUSIC_DIR : path) (fs : filesystem) (p : path)
  : option Track.t :=
  match run (_extract_track_info MUSIC_DIR fs p) with
  | Ret r => r
  | Raise _ => None
  end.

(** The records of the candidate files whose extraction succeeds. *)
Definition successes (MUSIC_DIR : path) (fs : filesystem) (files : list path)
  : list Track.t :=
  flat_map (fun p => match extracted MUSIC_DIR fs p with
                     | Some t => [t]
                     | None => []
                     end)
           (filter supported files).

(** The length the container of a file reports, if any. *)
Definition reported_length (fs : filesystem) (p : path) : option Q :=
  match mutagen_File fs p with
  | Ret (Some audio) =>
      match info audio with
      | Some i => info_length i
      | None => None
      end
  | _ => None
  end.

(** Neither directory lies in the other. *)
Definition disjoint (d1 d2 : path) : Prop :=
  starts_with d1 d2 = false /\ starts_with d2 d1 = false.

(** [l1] is [l2] with some elements left out. *)
Inductive subseq {A : Type} : list A -> list A -> Prop :=
| subseq_nil : subseq [] []
| subseq_skip x l1 l2 : subseq l1 l2 -> subseq l1 (x :: l2)
| subseq_keep x l1 l2 : subseq l1 l2 -> subseq (x :: l1) (x :: l2).

Definition is_hex (c : ascii) : bool :=
  existsb (Ascii.eqb c) Md5.hex_digits.

(** The range of a byte. *)
Definition is_byte (b : Z) : Prop := (0 <= b < 256)%Z.

(** What a successful run of the body of the extractor consists of. *)
Definition record_of (MUSIC_DIR p : path) (st : names) (dur : Q) (n : N)
  : Track.t :=
  Track.mk (Md5.hexdigest (encode (path_str p)))
           (n_title st) (n_artist st) (n_album st)
           (name p) (path_str p)
           (path_str (skipn (List.length MUSIC_DIR) p))
           (round2 dur) (Z.of_N n) (drop 1 (lower (suffix p))).

Definition tags_read (oa : option audio_file) (p : path) (st : names) (dur : Q)
  : Prop :=
  match oa with
  | Some audio =>
      read_tags audio (placeholders p) = Ret st /\
      dur = read_duration audio 0%Q
  | None => st = placeholders p /\ dur = 0%Q
  end.

End Spec.

(* ================================================================= *)
(** ** A sample library *)

Module Sample.

Import PyStr Pathlib Py Mutagen Fs MusicScanner.
Local Open Scope string_scope.

Definition song_a : audio_file :=
  mkAudio MP3 (Some (mkInfo (Some (12345 # 1000)%Q)))
          (Some [("TIT2", VObj "Song A"); ("TPE1", VObj "Artist A");
                 ("title", VObj "ignored"); ("album", VObj "ignored")]).

Definition track_2 : audio_file :=
  mkAudio FLAC (Some (mkInfo None)) (Some [("TITLE", VList ["Track 2"])]).

Definition vorbis : audio_file :=
  mkAudio Other (Some (mkInfo (Some (7 # 8)%Q)))
          (Some [("title", VObj "First"); ("subtitle", VObj "Second");
                 ("ALBUMARTIST", VList ["Band"; "Guest"])]).

Definition spaces : audio_file :=
  mkAudio MP3 None (Some [("TIT2", VObj " ")]).

Definition reversed : audio_file :=
  mkAudio Other (Some (mkInfo (Some (-1 # 1)%Q))) None.

Definition music : node :=
  Dir (Some 4096%N)
    [("a.mp3", File (Some 100%N) (Ret (Some song_a)));
     ("sub", Dir (Some 4096%N)
        [("b.OGG", File (Some 7%N) (Ret (Some vorbis)));
         ("bad.flac", File (Some 1%N) (Raise MutagenError));
         ("t2.flac", File (Some 9%N) (Ret (Some track_2)));
         ("notes.txt", File (Some 1%N) (Ret None))]);
     ("c.wav", File (Some 5%N) (Ret None));
     ("s.mp3", File (Some 3%N) (Ret (Some spaces)));
     ("r.ogg", File (Some 2%N) (Ret (Some reversed)))].

Definition tmp : node :=
  Dir (Some 4096%N) [("x.wav", File (Some 5%N) (Ret None))].

Definition collision_a : string :=
  "TEXTCOLLBYfGiJUETHQ4hAcKSMd5zYpgqf1YRDhkmxHkhPWptrkoyz28wnI9V0aHeAuaKnak".
Definition collision_e : string :=
  "TEXTCOLLBYfGiJUETHQ4hEcKSMd5zYpgqf1YRDhkmxHkhPWptrkoyz28wnI9V0aHeAuaKnak".

(** The root holds /media/music and /tmp; the working directory holds two
    files. *)
Definition disk : filesystem :=
  mkFs (Dir (Some 4096%N)
          [("media", Dir (Some 4096%N) [("music", music)]); ("tmp", tmp)])
       (Dir (Some 4096%N)
          [(collision_a, File (Some 1%N) (Ret None));
           (collision_e, File (Some 2%N) (Ret None))]).

Definition media_music : path := ["/"; "media"; "music"].
Definition a_mp3 : path := ["/"; "media"; "music"; "a.mp3"].
Definition b_ogg : path := ["/"; "media"; "music"; "sub"; "b.OGG"].
Definition t2_flac : path := ["/"; "media"; "music"; "sub"; "t2.flac"].
Definition c_wav : path := ["/"; "media"; "music"; "c.wav"].
Definition s_mp3 : path := ["/"; "media"; "music"; "s.mp3"].
Definition r_ogg : path := ["/"; "media"; "music"; "r.ogg"].
Definition x_wav : path := ["/"; "tmp"; "x.wav"].
Definition nowhere : path := ["/"; "nowhere"].

End Sample.

(* ================================================================= *)
(** ** pathlib: building a path from a string *)

Module PathParse.

Import PyStr Pathlib.
Local Open Scope string_scope.

Definition sep : ascii := "/"%char.

(** [s.split(sep)]: never empty; the pieces hold no separator. *)
Fixpoint split (s : string) : list string :=
  match s with
  | EmptyString => [EmptyString]
  | String c s' =>
      if Ascii.eqb c sep then EmptyString :: split s'
      else match split s' with
           | piece :: rest => String c piece :: rest
           | [] => [String c EmptyString]
           end
  end.

(** [s.lstrip(sep)]. *)
Fixpoint lstrip (s : string) : string :=
  match s with
  | String c s' => if Ascii.eqb c sep then lstrip s' else s
  | EmptyString => EmptyString
  end.

(** [_PosixFlavour.splitroot]: the root and what follows it.  Exactly two
    leading slashes make the root "//". *)
Definition splitroot (part : string) : string * string :=
  match part with
  | String c _ =>
      if Ascii.eqb c sep then
        let stripped_part := lstrip part in
        if (String.length part - String.length stripped_part =? 2)%nat
        then ("//", stripped_part)
        else ("/", stripped_part)
      else ("", part)
  | EmptyString => ("", part)
  end.

(** [Path(s).parts]: the root, if any, and the pieces that are neither
    empty nor ".". *)
Definition parse_path (s : string) : path :=
  let '(root, rel) := splitroot s in
  let parsed :=
    filter (fun x => truthy x && negb (String.eqb x ".")) (split rel) in
  if truthy root then root :: parsed else parsed.

End PathParse.

(* ================================================================= *)
(** ** The library and stream routes *)

Module Stream.

Import PyStr Pathlib Py Fs Routes PathParse.
Local Open Scope string_scope.

(** The two 404 answers of [stream_track]: no track has the id, or the
    file of the track is gone. *)
Inductive stream_error := FileUnknown | FileDeleted.

(** A 404 answer, or the arguments of [send_file]. *)
Inductive response :=
| NotFound (error : stream_error)
| SendFile (file : string) (mimetype : string)
           (as_attachment : bool) (conditional : bool).

(** [/api/library]: the [tracks] and the [total] of the response. *)
Definition get_library (st : server) : list Track.t * nat :=
  (music_library st, List.length (music_library st)).

Section Routes.

(** The first component of [mimetypes.guess_type]. *)
Variable guess_type : string -> option string.
Variable fs : filesystem.

(** [/api/stream/<track_id>]. *)
Definition stream_track (track_id : string) (st : server) : response :=
  match find (fun t => String.eqb (Track.id t) track_id) (music_library st)
  with
  | None => NotFound FileUnknown
  | Some track =>
      let file_path := parse_path (Track.path track) in
      if negb (path_exists fs file_path) then NotFound FileDeleted
      else
        let mimetype :=
          match guess_type (path_str file_path) with
          | Some m => if truthy m then m else "audio/mpeg"
          | None => "audio/mpeg"
          end in
        SendFile (path_str file_path) mimetype false true
  end.

End Routes.

End Stream.

(* ================================================================= *)
(** ** Further vocabulary *)

Module Spec2.

Import PyStr Pathlib Py Mutagen Fs MusicScanner PathParse.
Local Open Scope string_scope.

(** The log records of the candidate files whose extraction fails. *)
Definition failures (MUSIC_DIR : path) (fs : filesystem) (files : list path)
  : list log_record :=
  flat_map (fun p => match extract_body MUSIC_DIR fs p with
                     | Ret _ => []
                     | Raise e => [mkLog ERROR (ExtractFailed p e)]
                     end)
           (filter supported files).

Fixpoint has_sep (s : string) : bool :=
  match s with
  | EmptyString => false
  | String c s' => Ascii.eqb c sep || has_sep s'
  end.

(** A file name: not empty, not ".", without a slash. *)
Definition valid_name (x : string) : bool :=
  truthy x && negb (String.eqb x ".") && negb (has_sep x).

(** Parts as [pathlib] produces them with the root "/" or none. *)
Definition wf_path (p : path) : bool :=
  match p with
  | [] => true
  | x :: r => (String.eqb x "/" || valid_name x) && forallb valid_name r
  end.

(** All the entries below a node bear file names. *)
Fixpoint wf_node (n : node) : bool :=
  match n with
  | File _ _ => true
  | Dir _ es =>
      (fix all (l : list (string * node)) : bool :=
         match l with
         | [] => true
         | (k, c) :: l' => valid_name k && wf_node c && all l'
         end) es
  end.

Definition wf_fs (fs : filesystem) : bool :=
  wf_node (fs_root fs) && wf_node (fs_cwd fs).

Definition formats : list string :=
  ["mp3"; "mp4"; "m4a"; "flac"; "ogg"; "wav"].

(** The string of a directory, up to and with the slash that precedes the
    name of an entry: the root directory is its own slash. *)
Definition directory_prefix (d : path) : string :=
  match d with
  | [x] => if String.eqb x "/" then "/" else x ++ "/"
  | _ => path_str d ++ "/"
  end.

End Spec2.

(* ================================================================= *)
(** ** The existence test of the scanner *)

Module Os.

Import PyStr Pathlib Py Fs MusicScanner Routes.

(** The error numbers with which [os.stat] fails. *)
Inductive errno :=
| ENOENT | ENOTDIR | EBADF | ELOOP | EACCES | ENAMETOOLONG | EIO.

(** [pathlib._ignore_error]: the errors that mean that nothing is there. *)
Definition _ignore_error (e : errno) : bool :=
  match e with
  | ENOENT | ENOTDIR | EBADF | ELOOP => true
  | EACCES | ENAMETOOLONG | EIO => false
  end.

(** A system is a file-system tree together with the error, if any, with
    which [os.stat] fails on a path for a reason that the tree does not
    show: a name longer than the file system allows, a directory that may
    not be searched, a loop of symbolic links, an input/output error. *)
Record system := mkSystem {
  sys_tree : filesystem;
  stat_error : path -> option errno
}.

(** The system on which [os.stat] fails for missing entries only. *)
Definition plain (fs : filesystem) : system := mkSystem fs (fun _ => None).

(** [Path.exists()]: [self.stat()] under [try]; an [OSError] for which
    [_ignore_error] holds gives [False], any other one is raised again.
    Without an error of the system, the call succeeds on a path that the
    tree holds and fails with ENOENT or ENOTDIR on any other. *)
Definition exists_ (sys : system) (p : path) : outcome bool :=
  match stat_error sys p with
  | Some e => if _ignore_error e then Ret false else Raise OSError
  | None => Ret (path_exists (sys_tree sys) p)
  end.

Section Scanner.

Variable MUSIC_DIR : path.
Variable sys : system.

(** [scan_directory] on a system: the existence test of its second
    statement stands outside every [try]. *)
Definition scan_directory_on (directory : path) : py (list Track.t) :=
  let tracks := [] in
  let music_path := directory in
  (found <- lift (exists_ sys music_path) ;;
   if negb found then
     (logger WARNING (DirectoryMissing directory) ;;; ret tracks)
   else
     (logger INFO (ScanStarted directory) ;;;
      tracks <- scan_loop MUSIC_DIR (sys_tree sys)
                  (rglob (sys_tree sys) music_path) tracks ;;
      logger INFO (ScanFinished (List.length tracks)) ;;;
      ret tracks))%py.

(** [/api/scan] on a system. *)
Definition scan_library_on (st : server) : py (server * nat) :=
  (tracks <- scan_directory_on MUSIC_DIR ;;
   ret (mkServer tracks, List.length tracks))%py.

End Scanner.

(** The longest file name, in bytes, of the common Linux file systems. *)
Definition NAME_MAX : nat := 255.

(** [os.stat] refuses a path one of whose names is longer than NAME_MAX. *)
Definition name_too_long (p : path) : option errno :=
  if existsb (fun x => (NAME_MAX <? List.length (encode x))%nat) p
  then Some ENAMETOOLONG else None.

End Os.

(** The sample library on a system that limits the length of names, and a
    root whose name of 300 letters it refuses. *)
Module SampleOs.

Import Pathlib Os.

Definition limited : system := mkSystem Sample.disk name_too_long.

Definition long_name : string :=
  string_of_list_ascii (repeat "a"%char 300).

Definition long_root : path := ["/"%string; long_name].

End SampleOs.

(* ================================================================= *)
(** * Properties *)

Import PyStr Pathlib Py Mutagen Fs MusicScanner Routes Spec.
Import PathParse Stream Spec2 Os.

(** ** Running the extractor and the scanner *)

Lemma extract_run MUSIC_DIR fs p l :
  _extract_track_info MUSIC_DIR fs p l =
  match extract_body MUSIC_DIR fs p with
  | Ret t => (Ret (Some t), l)
  | Raise e => (Ret None, (l ++ [mkLog ERROR (ExtractFailed p e)])%list)
  end.
Proof.
  unfold _extract_track_info, try_except, bind, lift, ret, logger.
  destruct (extract_body MUSIC_DIR fs p); reflexivity.
Qed.

Lemma extracted_body MUSIC_DIR fs p :
  extracted MUSIC_DIR fs p =
  match extract_body MUSIC_DIR fs p with
  | Ret t => Some t
  | Raise _ => None
  end.
Proof.
  unfold extracted, run. rewrite extract_run.
  destruct (extract_body MUSIC_DIR fs p); reflexivity.
Qed.

Lemma extract_returns MUSIC_DIR fs p l :
  exists l', _extract_track_info MUSIC_DIR fs p l
             = (Ret (extracted MUSIC_DIR fs p), l').
Proof.
  rewrite extract_run, extracted_body.
  destruct (extract_body MUSIC_DIR fs p); eexists; reflexivity.
Qed.

Lemma run_extract MUSIC_DIR fs p :
  run (_extract_track_info MUSIC_DIR fs p) = Ret (extracted MUSIC_DIR fs p).
Proof.
  unfold run. destruct (extract_returns MUSIC_DIR fs p []) as [l' ->].
  reflexivity.
Qed.

Lemma successes_cons MUSIC_DIR fs p files :
  successes MUSIC_DIR fs (p :: files) =
  ((if supported p then
      match extracted MUSIC_DIR fs p with Some t => [t] | None => [] end
    else []) ++ successes MUSIC_DIR fs files)%list.
Proof.
  unfold successes. simpl. destruct (supported p); reflexivity.
Qed.

Lemma scan_loop_run MUSIC_DIR fs files :
  forall tracks l,
  exists l', scan_loop MUSIC_DIR fs files tracks l
             = (Ret (tracks ++ successes MUSIC_DIR fs files)%list, l').
Proof.
  induction files as [| p files IH]; intros tracks l; simpl.
  - exists l. unfold ret, successes. simpl. now rewrite app_nil_r.
  - rewrite successes_cons. destruct (supported p).
    + unfold bind at 1. unfold try_except. unfold bind at 1.
      destruct (extract_returns MUSIC_DIR fs p l) as [l1 ->].
      unfold ret at 1.
      destruct (extracted MUSIC_DIR fs p) as [t |].
      * destruct (IH (tracks ++ [t])%list l1) as [l2 ->].
        exists l2. now rewrite <- app_assoc.
      * destruct (IH tracks l1) as [l2 ->]. now exists l2.
    + destruct (IH tracks l) as [l2 ->]. now exists l2.
Qed.

Lemma resolve_missing_rglob fs d :
  path_exists fs d = false -> rglob fs d = [].
Proof.
  unfold path_exists, rglob. now destruct (resolve fs d).
Qed.

Lemma scan_directory_run MUSIC_DIR fs d l :
  exists l', scan_directory MUSIC_DIR fs d l
             = (Ret (successes MUSIC_DIR fs (rglob fs d)), l').
Proof.
  unfold scan_directory.
  destruct (path_exists fs d) eqn:E; simpl.
  - unfold bind at 1. unfold logger at 1. unfold bind at 1.
    destruct (scan_loop_run MUSIC_DIR fs (rglob fs d) []
                (l ++ [mkLog INFO (ScanStarted d)])%list) as [l1 ->].
    simpl. unfold bind, logger, ret. eexists; reflexivity.
  - rewrite (resolve_missing_rglob _ _ E).
    unfold bind, logger, ret. eexists; reflexivity.
Qed.

Lemma extract_body_ret MUSIC_DIR fs p t :
  extract_body MUSIC_DIR fs p = Ret t <->
  exists oa st dur n,
    mutagen_File fs p = Ret oa /\
    tags_read oa p st dur /\
    is_relative_to p MUSIC_DIR = true /\
    stat_size fs p = Ret n /\
    t = record_of MUSIC_DIR p st dur n.
Proof.
  unfold extract_body, relative_to, tags_read, record_of, placeholders.
  split.
  - destruct (mutagen_File fs p) as [oa |]; simpl; [| discriminate].
    destruct oa as [audio |]; simpl.
    + destruct (read_tags audio _) as [st |] eqn:Et; simpl; [| discriminate].
      destruct (is_relative_to p MUSIC_DIR); simpl; [| discriminate].
      destruct (stat_size fs p) as [n |]; simpl; [| discriminate].
      intros [= <-]. exists (Some audio), st, (read_duration audio 0%Q), n.
      repeat split; assumption.
    + destruct (is_relative_to p MUSIC_DIR); simpl; [| discriminate].
      destruct (stat_size fs p) as [n |]; simpl; [| discriminate].
      intros [= <-]. exists None, (mkNames (stem p) "Unknown Artist" "Unknown Album"), 0%Q, n.
      repeat split.
  - intros (oa & st & dur & n & -> & Ht & -> & -> & ->).
    destruct oa as [audio |]; simpl.
    + destruct Ht as [-> ->]. reflexivity.
    + destruct Ht as [-> ->]. reflexivity.
Qed.

Lemma extracted_some MUSIC_DIR fs p t :
  extracted MUSIC_DIR fs p = Some t <->
  exists oa st dur n,
    mutagen_File fs p = Ret oa /\
    tags_read oa p st dur /\
    is_relative_to p MUSIC_DIR = true /\
    stat_size fs p = Ret n /\
    t = record_of MUSIC_DIR p st dur n.
Proof.
  rewrite <- extract_body_ret, extracted_body.
  destruct (extract_body MUSIC_DIR fs p); split; congruence.
Qed.



(** ** Isolation of failures *)

(** The sample library: six records for seven files with a supported
    suffix; bad.flac, on which the parser raises, is left out. *)
Example sample_scan :
  map Track.filename
      (successes Sample.media_music Sample.disk
         (rglob Sample.disk Sample.media_music))
  = ["a.mp3"; "c.wav"; "s.mp3"; "r.ogg"; "b.OGG"; "t2.flac"]%string.
Proof. vm_compute. reflexivity. Qed.


(** ** A missing root directory *)

Lemma exists_false_iff sys d :
  exists_ sys d = Ret false <->
  match stat_error sys d with
  | Some e => _ignore_error e = true
  | None => path_exists (sys_tree sys) d = false
  end.
Proof.
  unfold exists_. destruct (stat_error sys d) as [e |].
  - destruct (_ignore_error e); split; congruence.
  - split; congruence.
Qed.

Lemma exists_raise_iff sys d x :
  exists_ sys d = Raise x <->
  x = OSError /\
  exists e, stat_error sys d = Some e /\ _ignore_error e = false.
Proof.
  unfold exists_. destruct (stat_error sys d) as [e |].
  - destruct (_ignore_error e) eqn:E; split.
    + discriminate.
    + intros (_ & e' & [= <-] & C). congruence.
    + intros [= <-]. eauto.
    + now intros [-> _].
  - split; [discriminate | intros (_ & e & C & _); discriminate].
Qed.

(** On a system without errors of its own the scan is the scan of the
    tree. *)
Lemma scan_directory_on_plain MUSIC_DIR fs d l :
  scan_directory_on MUSIC_DIR (plain fs) d l = scan_directory MUSIC_DIR fs d l.
Proof.
  unfold scan_directory_on, scan_directory, exists_, plain, bind, lift.
  cbn [stat_error sys_tree].
  destruct (path_exists fs d); reflexivity.
Qed.

Lemma scan_library_on_plain MUSIC_DIR fs st l :
  scan_library_on MUSIC_DIR (plain fs) st l = scan_library MUSIC_DIR fs st l.
Proof.
  unfold scan_library_on, scan_library, bind.
  now rewrite scan_directory_on_plain.
Qed.

(** Where the existence test returns True the scan is the scan of the
    tree, and where it raises the scan raises at once. *)
Lemma scan_directory_on_found MUSIC_DIR sys d l :
  exists_ sys d = Ret true ->
  scan_directory_on MUSIC_DIR sys d l
  = scan_directory MUSIC_DIR (sys_tree sys) d l.
Proof.
  intros E. unfold scan_directory_on, scan_directory, bind, lift.
  rewrite E. unfold exists_ in E.
  destruct (stat_error sys d) as [e |].
  - destruct (_ignore_error e); discriminate.
  - injection E as ->. reflexivity.
Qed.

Lemma scan_directory_on_raises MUSIC_DIR sys d l x :
  exists_ sys d = Raise x ->
  scan_directory_on MUSIC_DIR sys d l = (Raise x, l).
Proof.
  intros E. unfold scan_directory_on, bind, lift. now rewrite E.
Qed.

(** C8, amended.  When the existence test of the root directory returns
    False, the scan returns the empty list and its only effect is one log
    record of level WARNING; nothing is raised, and [scan_library] on such
    a [MUSIC_DIR] leaves the server with an empty catalog and answers a
    total of 0.  The test returns False when [os.stat] fails with one of
    the errors that mean a missing entry, and in particular when no other
    error occurs and the tree holds nothing at the path. *)
Theorem absent_root_gives_empty_catalog MUSIC_DIR sys d st l :
  exists_ sys d = Ret false ->
  (match stat_error sys d with
   | Some e => _ignore_error e = true
   | None => path_exists (sys_tree sys) d = false
   end) /\
  scan_directory_on MUSIC_DIR sys d l
    = (Ret [], (l ++ [mkLog WARNING (DirectoryMissing d)])%list) /\
  (d = MUSIC_DIR ->
   scan_library_on MUSIC_DIR sys st l
     = (Ret (mkServer [], 0%nat),
        (l ++ [mkLog WARNING (DirectoryMissing MUSIC_DIR)])%list)).
Proof.
  intros E.
  assert (H : scan_directory_on MUSIC_DIR sys d l
              = (Ret [], (l ++ [mkLog WARNING (DirectoryMissing d)])%list)).
  { unfold scan_directory_on, bind, lift. rewrite E. reflexivity. }
  split; [now apply exists_false_iff |].
  split; [exact H |].
  intros ->. unfold scan_library_on, bind. rewrite H. reflexivity.
Qed.

Lemma absent_root_witness :
  exists_ SampleOs.limited Sample.nowhere = Ret false /\
  scan_directory_on Sample.media_music SampleOs.limited Sample.nowhere []
    = (Ret [], [mkLog WARNING (DirectoryMissing Sample.nowhere)]).
Proof.
  split; [reflexivity |].
  apply (absent_root_gives_empty_catalog
           Sample.media_music SampleOs.limited Sample.nowhere
           (mkServer []) []).
  reflexivity.
Defined.

(** C8 as stated fails: the tree holds nothing at the root made of 300
    letters "a", so that root does not exist; but [os.stat] refuses the
    name with ENAMETOOLONG, [Path.exists()] raises that error again, and
    the scan raises it without a log record instead of returning the empty
    list after a warning. *)
Lemma overlong_missing_root_raises :
  path_exists (sys_tree SampleOs.limited) SampleOs.long_root = false /\
  String.length SampleOs.long_name = 300%nat /\
  stat_error SampleOs.limited SampleOs.long_root = Some ENAMETOOLONG /\
  exists_ SampleOs.limited SampleOs.long_root = Raise OSError /\
  scan_directory_on Sample.media_music SampleOs.limited SampleOs.long_root []
    = (Raise OSError, []).
Proof. repeat split; vm_compute; reflexivity. Qed.

(** ** The generic tag scan *)

Lemma generic_step_field st kv :
  generic_step st kv =
  match field_of_key (fst kv) with
  | Some FTitle =>
      obind (first_elem (snd kv))
            (fun v => Ret (mkNames v (n_artist st) (n_album st)))
  | Some FArtist =>
      obind (first_elem (snd kv))
            (fun v => Ret (mkNames (n_title st) v (n_album st)))
  | Some FAlbum =>
      obind (first_elem (snd kv))
            (fun v => Ret (mkNames (n_title st) (n_artist st) v))
  | None => Ret st
  end.
Proof.
  unfold generic_step, field_of_key, key_matches, needle.
  destruct (contains "title" (lower (fst kv))); [reflexivity |].
  destruct (contains "artist" (lower (fst kv))); [reflexivity |].
  destruct (contains "album" (lower (fst kv))); reflexivity.
Qed.

(** What one iteration does to one field. *)
Lemma generic_step_ret st kv st' f :
  generic_step st kv = Ret st' ->
  if taken_for f (fst kv)
  then first_elem (snd kv) = Ret (get_name f st')
  else get_name f st' = get_name f st.
Proof.
  rewrite generic_step_field. unfold taken_for.
  destruct (field_of_key (fst kv)) as [[] |];
    try (destruct (first_elem (snd kv)) as [v |]; simpl; [| discriminate]);
    intros [= <-]; destruct f; reflexivity.
Qed.

Lemma generic_loop_ret items :
  forall st st' f,
    generic_loop items st = Ret st' ->
    match last_match f items with
    | Some kv => first_elem (snd kv) = Ret (get_name f st')
    | None => get_name f st' = get_name f st
    end.
Proof.
  induction items as [| kv rest IH]; intros st st' f; simpl.
  - now intros [= <-].
  - destruct (generic_step st kv) as [st1 |] eqn:E1; simpl; [| discriminate].
    intros H. specialize (IH st1 st' f H).
    destruct (last_match f rest); [exact IH |].
    pose proof (generic_step_ret st kv st1 f E1) as Hs.
    destruct (taken_for f (fst kv)); congruence.
Qed.

(** The scan raises exactly when a key taken for some field carries an
    empty list. *)
Lemma generic_loop_raise items :
  forall st,
    (exists e, generic_loop items st = Raise e) <->
    Exists (fun kv => field_of_key (fst kv) <> None /\ snd kv = VList [])
           items.
Proof.
  induction items as [| kv rest IH]; intros st; simpl.
  - split; [intros [e H]; discriminate | intros H; inversion H].
  - rewrite Exists_cons, generic_step_field.
    destruct (field_of_key (fst kv)) as [g |] eqn:Ek.
    + assert (Hv : (exists x, first_elem (snd kv) = Ret x) \/
                   snd kv = VList []).
      { destruct (snd kv) as [[| x r] | s]; simpl; eauto. }
      destruct Hv as [[x Hx] | Hnil].
      * assert (Hne : snd kv <> VList [])
          by (intros C; rewrite C in Hx; discriminate).
        destruct g; rewrite Hx; simpl; rewrite IH;
          (split; [intros H; now right | intros [[_ C] | H]; tauto]).
      * destruct g; rewrite Hnil; simpl;
          (split; [intros _; left; split; [discriminate | reflexivity]
                  | intros _; eexists; reflexivity]).
    + simpl. rewrite IH. split; [intros H; now right |].
      intros [[C _] | H]; [now elim C | exact H].
Qed.

Lemma read_tags_other audio st :
  kind audio = Other -> read_tags audio st = generic_loop (tag_items audio) st.
Proof. unfold read_tags. now intros ->. Qed.

Lemma get_record_of MUSIC_DIR p st dur n f :
  get f (record_of MUSIC_DIR p st dur n) = get_name f st.
Proof. now destruct f. Qed.

(** The names a successful extraction of a parsed file has read. *)
Lemma extracted_read_tags MUSIC_DIR fs p audio t :
  mutagen_File fs p = Ret (Some audio) ->
  extracted MUSIC_DIR fs p = Some t ->
  exists st, read_tags audio (placeholders p) = Ret st /\
             forall f, get f t = get_name f st.
Proof.
  intros Hm Ht. apply extracted_some in Ht.
  destruct Ht as (oa & st & dur & n & Hm' & Hr & _ & _ & ->).
  rewrite Hm in Hm'. injection Hm' as <-. destruct Hr as [Hr _].
  exists st. split; [exact Hr |]. intros f. apply get_record_of.
Qed.

(** C1, amended.  For a file object of none of the three named classes,
    each of title, artist and album is the value of the LAST item, in
    iteration order, whose lower-cased key is taken for that field (a key
    counts for the first of "title", "artist", "album" it contains); of a
    list value the first element is taken; a field for which no key is
    taken keeps its placeholder. *)
Theorem generic_scan_last_match_wins MUSIC_DIR fs p audio t f :
  mutagen_File fs p = Ret (Some audio) ->
  kind audio = Other ->
  run (_extract_track_info MUSIC_DIR fs p) = Ret (Some t) ->
  match last_match f (tag_items audio) with
  | Some (_, VList elements) => hd_error elements = Some (get f t)
  | Some (_, VObj text) => text = get f t
  | None => get f t = placeholder p f
  end.
Proof.
  intros Hm Hk Hrun. rewrite run_extract in Hrun. injection Hrun as Ht.
  destruct (extracted_read_tags _ _ _ _ _ Hm Ht) as (st & Hr & Hget).
  rewrite read_tags_other in Hr by exact Hk.
  pose proof (generic_loop_ret _ _ _ f Hr) as H.
  rewrite Hget.
  destruct (last_match f (tag_items audio)) as [[k v] |]; [| exact H].
  simpl in H. destruct v as [[| x r] | s]; simpl in *; congruence.
Qed.

Lemma generic_scan_witness :
  exists t,
    run (_extract_track_info Sample.media_music Sample.disk Sample.b_ogg)
      = Ret (Some t) /\
    "Second"%string = get FTitle t.
Proof.
  eexists.
  assert (H : run (_extract_track_info Sample.media_music Sample.disk
                     Sample.b_ogg) = Ret (Some _))
    by (vm_compute; reflexivity).
  split; [exact H |].
  exact (generic_scan_last_match_wins
           Sample.media_music Sample.disk Sample.b_ogg
           Sample.vorbis _ FTitle eq_refl eq_refl H).
Defined.

(** C1 as stated fails: the first item whose key contains "title" carries
    "First", and the extracted title is "Second", the value of a later
    matching key. *)
Lemma generic_scan_first_match_refuted :
  exists t,
    run (_extract_track_info Sample.media_music Sample.disk Sample.b_ogg)
      = Ret (Some t) /\
    kind Sample.vorbis = Other /\
    first_match FTitle (tag_items Sample.vorbis)
      = Some ("title", VObj "First")%string /\
    Track.title t <> "First"%string.
Proof.
  eexists. split; [vm_compute; reflexivity |].
  split; [reflexivity |]. split; [reflexivity |].
  simpl. discriminate.
Qed.

(** ** The three named tag schemes *)

Lemma get_tag_lookup audio key :
  (if tags_truthy audio then
     match dict_get key (tag_items audio) with
     | Some value => Some (first_or_str value)
     | None => None
     end
   else None)
  = option_map first_or_str (dict_get key (tag_items audio)).
Proof.
  unfold tags_truthy. destruct (tag_items audio) as [| kv r]; [reflexivity |].
  destruct (dict_get key (kv :: r)); reflexivity.
Qed.

Lemma get_id3_tag_lookup audio key :
  _get_id3_tag audio key
  = option_map first_or_str (dict_get key (tag_items audio)).
Proof. apply get_tag_lookup. Qed.

Lemma get_mp4_tag_lookup audio key :
  _get_mp4_tag audio key
  = option_map first_or_str (dict_get key (tag_items audio)).
Proof. apply get_tag_lookup. Qed.

Lemma get_vorbis_tag_lookup audio key :
  _get_vorbis_tag audio key
  = option_map first_or_str (dict_get (upper key) (tag_items audio)).
Proof. apply get_tag_lookup. Qed.

Lemma read_tags_named audio st :
  kind audio <> Other ->
  exists st',
    read_tags audio st = Ret st' /\
    forall f,
      get_name f st' =
      py_or (option_map first_or_str
               (dict_get (fixed_key (kind audio) f) (tag_items audio)))
            (get_name f st).
Proof.
  intros Hk. unfold read_tags.
  destruct (kind audio); try (now elim Hk);
    eexists; (split; [reflexivity |]); intros [];
    simpl;
    rewrite ?get_id3_tag_lookup, ?get_mp4_tag_lookup, ?get_vorbis_tag_lookup;
    reflexivity.
Qed.

Lemma named_field MUSIC_DIR fs p audio t f :
  mutagen_File fs p = Ret (Some audio) ->
  extracted MUSIC_DIR fs p = Some t ->
  kind audio <> Other ->
  get f t =
  py_or (option_map first_or_str
           (dict_get (fixed_key (kind audio) f) (tag_items audio)))
        (placeholder p f).
Proof.
  intros Hm Ht Hk.
  destruct (extracted_read_tags _ _ _ _ _ Hm Ht) as (st & Hr & Hget).
  destruct (read_tags_named audio (placeholders p) Hk) as (st' & Hr' & Hn).
  rewrite Hr in Hr'. injection Hr' as <-.
  rewrite Hget. apply Hn.
Qed.

Lemma truthy_false s : truthy s = false <-> s = EmptyString.
Proof. destruct s; simpl; split; congruence. Qed.

(** C5. For a file object of class MP3, MP4 or FLAC, each of title, artist
    and album is read under the fixed key of that class and nowhere else:
    it is the value found there when that is a non-empty string and the
    placeholder otherwise, whatever other keys the tags hold, so that a
    missing fixed key is never made up for by keys containing "title",
    "artist" or "album".  The scan of all keys is what the extractor runs
    for a file object of any other class. *)
Theorem named_scheme_reads_fixed_keys_only MUSIC_DIR fs p audio t :
  mutagen_File fs p = Ret (Some audio) ->
  run (_extract_track_info MUSIC_DIR fs p) = Ret (Some t) ->
  (kind audio <> Other ->
   forall f,
     get f t =
     match dict_get (fixed_key (kind audio) f) (tag_items audio) with
     | Some v =>
         if truthy (first_or_str v) then first_or_str v else placeholder p f
     | None => placeholder p f
     end) /\
  (kind audio = Other ->
   exists st,
     generic_loop (tag_items audio) (placeholders p) = Ret st /\
     forall f, get f t = get_name f st).
Proof.
  intros Hm Hrun. rewrite run_extract in Hrun. injection Hrun as Ht.
  split.
  - intros Hk f. rewrite (named_field _ _ _ _ _ f Hm Ht Hk).
    destruct (dict_get (fixed_key (kind audio) f) (tag_items audio));
      reflexivity.
  - intros Hk.
    destruct (extracted_read_tags _ _ _ _ _ Hm Ht) as (st & Hr & Hget).
    rewrite read_tags_other in Hr by exact Hk. now exists st.
Qed.

Lemma named_scheme_witness :
  exists t,
    run (_extract_track_info Sample.media_music Sample.disk Sample.a_mp3)
      = Ret (Some t) /\
    last_match FAlbum (tag_items Sample.song_a)
      = Some ("album", VObj "ignored")%string /\
    get FAlbum t = "Unknown Album"%string.
Proof.
  eexists.
  assert (H : run (_extract_track_info Sample.media_music Sample.disk
                     Sample.a_mp3) = Ret (Some _))
    by (vm_compute; reflexivity).
  split; [exact H |]. split; [reflexivity |].
  exact (proj1 (named_scheme_reads_fixed_keys_only
                  Sample.media_music Sample.disk Sample.a_mp3
                  Sample.song_a _ eq_refl H)
               ltac:(discriminate) FAlbum).
Defined.

(** ** Placeholders *)

(** C3, amended.  When no file object was parsed, title, artist and album
    are the placeholders.  For a file object of a named class, a field
    whose fixed key is absent, or whose value there is the empty string,
    keeps its placeholder, and any non-empty value (one of white space
    only included) is stored as it is.  For a file object of another
    class, a field for which no key is taken keeps its placeholder. *)
Theorem placeholder_kept_when_absent_or_empty MUSIC_DIR fs p oa t f :
  mutagen_File fs p = Ret oa ->
  run (_extract_track_info MUSIC_DIR fs p) = Ret (Some t) ->
  match oa with
  | None => get f t = placeholder p f
  | Some audio =>
      (kind audio <> Other ->
       match dict_get (fixed_key (kind audio) f) (tag_items audio) with
       | None => get f t = placeholder p f
       | Some v =>
           (first_or_str v = EmptyString -> get f t = placeholder p f) /\
           (first_or_str v <> EmptyString -> get f t = first_or_str v)
       end) /\
      (kind audio = Other ->
       last_match f (tag_items audio) = None ->
       get f t = placeholder p f)
  end.
Proof.
  intros Hm Hrun. rewrite run_extract in Hrun. injection Hrun as Ht.
  destruct oa as [audio |].
  - split.
    + intros Hk. rewrite (named_field _ _ _ _ _ f Hm Ht Hk).
      destruct (dict_get (fixed_key (kind audio) f) (tag_items audio))
        as [v |]; [| reflexivity].
      simpl. destruct (truthy (first_or_str v)) eqn:E.
      * split; [| reflexivity]. intros C. rewrite C in E. discriminate.
      * apply truthy_false in E. split; [reflexivity | congruence].
    + intros Hk Hl.
      destruct (extracted_read_tags _ _ _ _ _ Hm Ht) as (st & Hr & Hget).
      rewrite read_tags_other in Hr by exact Hk.
      pose proof (generic_loop_ret _ _ _ f Hr) as H.
      rewrite Hl in H. rewrite Hget. exact H.
  - apply extracted_some in Ht.
    destruct Ht as (oa & st & dur & n & Hm' & Hr & _ & _ & ->).
    rewrite Hm in Hm'. injection Hm' as <-. destruct Hr as [-> _].
    apply get_record_of.
Qed.

Lemma placeholder_kept_witness :
  exists t,
    run (_extract_track_info Sample.media_music Sample.disk Sample.t2_flac)
      = Ret (Some t) /\
    get FArtist t = "Unknown Artist"%string.
Proof.
  eexists.
  assert (H : run (_extract_track_info Sample.media_music Sample.disk
                     Sample.t2_flac) = Ret (Some _))
    by (vm_compute; reflexivity).
  split; [exact H |].
  exact (proj1 (placeholder_kept_when_absent_or_empty
                  Sample.media_music Sample.disk Sample.t2_flac
                  (Some Sample.track_2) _ FArtist eq_refl H)
               ltac:(discriminate)).
Defined.

(** C3 as stated fails: an MP3 whose title frame is a single space yields
    a record whose title is that space, although the placeholder "s" was
    available. *)
Lemma whitespace_title_refuted :
  exists t,
    run (_extract_track_info Sample.media_music Sample.disk Sample.s_mp3)
      = Ret (Some t) /\
    mutagen_File Sample.disk Sample.s_mp3 = Ret (Some Sample.spaces) /\
    dict_get "TIT2" (tag_items Sample.spaces) = Some (VObj " ") /\
    placeholder Sample.s_mp3 FTitle = "s"%string /\
    blank (Track.title t) = true /\
    Track.title t <> placeholder Sample.s_mp3 FTitle.
Proof.
  eexists. split; [vm_compute; reflexivity |].
  repeat (split; [reflexivity |]).
  simpl. discriminate.
Qed.

(** ** When the extractor returns None *)

Lemma read_tags_raise audio st :
  (exists e, read_tags audio st = Raise e) <->
  kind audio = Other /\
  Exists (fun kv => field_of_key (fst kv) <> None /\ snd kv = VList [])
         (tag_items audio).
Proof.
  destruct (kind audio) eqn:Hk.
  1-3: split;
    [ intros [e H]; unfold read_tags in H; rewrite Hk in H; discriminate
    | intros [C _]; discriminate ].
  rewrite read_tags_other by exact Hk. rewrite generic_loop_raise. tauto.
Qed.

Lemma extract_body_raise MUSIC_DIR fs p :
  (exists e, extract_body MUSIC_DIR fs p = Raise e) <->
  (exists e, mutagen_File fs p = Raise e) \/
  (exists audio e, mutagen_File fs p = Ret (Some audio) /\
                   read_tags audio (placeholders p) = Raise e) \/
  is_relative_to p MUSIC_DIR = false \/
  (exists e, stat_size fs p = Raise e).
Proof.
  unfold extract_body, relative_to, placeholders.
  destruct (mutagen_File fs p) as [[audio |] | e0]; simpl.
  - destruct (read_tags audio _) as [st |] eqn:Et; simpl.
    + destruct (is_relative_to p MUSIC_DIR); simpl.
      * destruct (stat_size fs p) as [n | e1]; simpl.
        -- split; [intros [e H]; discriminate |].
           intros [[e H] | [(a & e & H & H') | [H | [e H]]]];
             try discriminate.
           injection H as <-. congruence.
        -- split; [intros _; right; right; right; eauto | eauto].
      * split; [intros _; right; right; now left | eauto].
    + split; [intros _; right; left; eauto | eauto].
  - destruct (is_relative_to p MUSIC_DIR); simpl.
    + destruct (stat_size fs p) as [n | e1]; simpl.
      * split; [intros [e H]; discriminate |].
        intros [[e H] | [(a & e & H & H') | [H | [e H]]]]; discriminate.
      * split; [intros _; right; right; right; eauto | eauto].
    + split; [intros _; right; right; now left | eauto].
  - split; [intros _; left; eauto | eauto].
Qed.

Lemma tagless_read_tags audio st :
  tag_items audio = [] -> read_tags audio st = Ret st.
Proof.
  intros H. unfold read_tags, _get_id3_tag, _get_mp4_tag, _get_vorbis_tag,
    tags_truthy. rewrite H. destruct st. destruct (kind audio); reflexivity.
Qed.

(** C2, amended.  The statement is about paths whose string encodes, as
    all strings of this development do.  The extractor never raises.  It
    returns None whenever [mutagen.File] raises on the file (a missing or
    unreadable file, or one that the parser rejects), whenever the path is
    not under MUSIC_DIR, and whenever the size stat fails; and when the
    scan of all keys meets no empty list under a key that it takes for a
    field, these are the only cases in which it returns None.  For a path
    under MUSIC_DIR whose stat succeeds: when the parser recognises no
    container the record has the file name's stem as title, the two
    literals as artist and album, duration 0 and the size of the stat;
    when the file object carries no tags, title, artist and album are
    those placeholders and the duration is the rounded length of the
    container. *)
Theorem extract_none_beyond_filesystem_errors MUSIC_DIR fs p :
  (forall e, run (_extract_track_info MUSIC_DIR fs p) <> Raise e) /\
  ((exists e, mutagen_File fs p = Raise e) \/
   is_relative_to p MUSIC_DIR = false \/
   (exists e, stat_size fs p = Raise e) ->
   run (_extract_track_info MUSIC_DIR fs p) = Ret None) /\
  (~ (exists audio,
         mutagen_File fs p = Ret (Some audio) /\ kind audio = Other /\
         Exists (fun kv => field_of_key (fst kv) <> None /\ snd kv = VList [])
                (tag_items audio)) ->
   run (_extract_track_info MUSIC_DIR fs p) = Ret None ->
   (exists e, mutagen_File fs p = Raise e) \/
   is_relative_to p MUSIC_DIR = false \/
   (exists e, stat_size fs p = Raise e)) /\
  (forall n,
      is_relative_to p MUSIC_DIR = true ->
      stat_size fs p = Ret n ->
      (mutagen_File fs p = Ret None ->
       run (_extract_track_info MUSIC_DIR fs p)
       = Ret (Some (Track.mk (Md5.hexdigest (encode (path_str p)))
                             (stem p) "Unknown Artist" "Unknown Album"
                             (name p) (path_str p)
                             (path_str (skipn (List.length MUSIC_DIR) p))
                             (round2 0) (Z.of_N n)
                             (drop 1 (lower (suffix p)))))) /\
      (forall audio,
          mutagen_File fs p = Ret (Some audio) ->
          tag_items audio = [] ->
          run (_extract_track_info MUSIC_DIR fs p)
          = Ret (Some (Track.mk (Md5.hexdigest (encode (path_str p)))
                                (stem p) "Unknown Artist" "Unknown Album"
                                (name p) (path_str p)
                                (path_str (skipn (List.length MUSIC_DIR) p))
                                (round2 (read_duration audio 0)) (Z.of_N n)
                                (drop 1 (lower (suffix p))))))) /\
  (round2 0 == 0)%Q.
Proof.
  rewrite run_extract. split; [intros e; discriminate |].
  assert (Hnone : Ret (extracted MUSIC_DIR fs p) = Ret None <->
                  exists e, extract_body MUSIC_DIR fs p = Raise e).
  { rewrite extracted_body.
    destruct (extract_body MUSIC_DIR fs p) as [t | e].
    - split; [discriminate | intros [e H]; discriminate].
    - split; [eauto | reflexivity]. }
  split; [| split; [| split; [| reflexivity]]].
  - intros H. apply Hnone. apply extract_body_raise.
    destruct H as [H | [H | H]]; [now left | now right; right; left |].
    now right; right; right.
  - intros Hno H. apply Hnone in H. apply extract_body_raise in H.
    destruct H as [H | [(audio & e & Hm & Hr) | [H | H]]];
      [now left | | now right; left | now right; right].
    elim Hno. exists audio. split; [exact Hm |].
    apply (read_tags_raise audio (placeholders p)). eauto.
  - intros n Hrel Hst. split.
    + intros Hm. f_equal. apply extracted_some.
      exists None, (placeholders p), 0%Q, n.
      repeat split; assumption.
    + intros audio Hm Hnil. f_equal. apply extracted_some.
      exists (Some audio), (placeholders p), (read_duration audio 0%Q), n.
      repeat split; try assumption.
      now apply tagless_read_tags.
Qed.

(** On /media/music/c.wav, which the parser opens without recognising a
    container, the fallback record is returned. *)
Lemma extract_fallback_witness :
  run (_extract_track_info Sample.media_music Sample.disk Sample.c_wav)
  = Ret (Some (Track.mk (Md5.hexdigest (encode "/media/music/c.wav"))
                        "c" "Unknown Artist" "Unknown Album" "c.wav"
                        "/media/music/c.wav" "c.wav" (round2 0) 5 "wav")).
Proof.
  exact (proj1 (proj1 (proj2 (proj2 (proj2
           (extract_none_beyond_filesystem_errors
              Sample.media_music Sample.disk Sample.c_wav))))
           5%N eq_refl eq_refl) eq_refl).
Defined.

(** C2 as stated fails: /tmp/x.wav exists, its stat succeeds and the
    parser opens it (recognising no container), yet the extractor returns
    None because the path is not under MUSIC_DIR. *)
Lemma readable_file_extracts_none :
  path_exists Sample.disk Sample.x_wav = true /\
  stat_size Sample.disk Sample.x_wav = Ret 5%N /\
  mutagen_File Sample.disk Sample.x_wav = Ret None /\
  run (_extract_track_info Sample.media_music Sample.disk Sample.x_wav)
    = Ret None.
Proof. repeat split; vm_compute; reflexivity. Qed.

(** ** The identifier *)

Lemma le_bytes_length n x : List.length (Md5.le_bytes n x) = n.
Proof. unfold Md5.le_bytes. now rewrite length_map, length_seq. Qed.

Lemma digest_length msg : List.length (Md5.digest msg) = 16%nat.
Proof.
  unfold Md5.digest. cbv zeta. rewrite !length_app, !le_bytes_length.
  reflexivity.
Qed.

Lemma hex_bytes_length l :
  List.length (flat_map Md5.hex_byte l) = (2 * List.length l)%nat.
Proof.
  induction l as [| b l IH]; [reflexivity |].
  cbn [flat_map]. rewrite length_app, IH. simpl. lia.
Qed.

Lemma string_of_list_length l :
  String.length (string_of_list_ascii l) = List.length l.
Proof. induction l as [| c l IH]; simpl; congruence. Qed.

Lemma hexdigest_length msg : String.length (Md5.hexdigest msg) = 32%nat.
Proof.
  unfold Md5.hexdigest.
  now rewrite string_of_list_length, hex_bytes_length, digest_length.
Qed.

Lemma hex_digit_is_hex n : is_hex (Md5.hex_digit n) = true.
Proof.
  unfold is_hex, Md5.hex_digit. apply existsb_exists.
  exists (nth (Z.to_nat n) Md5.hex_digits "0"%char).
  split; [| apply Ascii.eqb_refl].
  destruct (nth_in_or_default (Z.to_nat n) Md5.hex_digits "0"%char)
    as [H | ->]; [exact H | now left].
Qed.

Lemma hexdigest_is_hex msg c :
  In c (list_ascii_of_string (Md5.hexdigest msg)) -> is_hex c = true.
Proof.
  unfold Md5.hexdigest. rewrite list_ascii_of_string_of_list_ascii.
  intros H. apply in_flat_map in H. destruct H as (b & _ & Hc).
  destruct Hc as [<- | [<- | []]]; apply hex_digit_is_hex.
Qed.

Lemma le_bytes_are_bytes n x : Forall is_byte (Md5.le_bytes n x).
Proof.
  unfold Md5.le_bytes. apply Forall_forall. intros b H.
  apply in_map_iff in H. destruct H as (k & <- & _).
  change 255 with (Z.ones 8). rewrite Z.land_ones by lia.
  unfold is_byte. apply Z.mod_pos_bound. reflexivity.
Qed.

Lemma digest_bytes msg : Forall is_byte (Md5.digest msg).
Proof.
  unfold Md5.digest. cbv zeta.
  repeat (apply Forall_app; split); apply le_bytes_are_bytes.
Qed.

Lemma hex_digits_nodup : NoDup Md5.hex_digits.
Proof.
  unfold Md5.hex_digits. simpl.
  repeat (constructor; [simpl; intuition discriminate |]). constructor.
Qed.

Lemma hex_digit_inj i j :
  0 <= i < 16 -> 0 <= j < 16 -> Md5.hex_digit i = Md5.hex_digit j -> i = j.
Proof.
  intros Hi Hj H. unfold Md5.hex_digit in H.
  apply (proj1 (NoDup_nth Md5.hex_digits "0"%char) hex_digits_nodup) in H.
  - lia.
  - change (List.length Md5.hex_digits) with 16%nat. lia.
  - change (List.length Md5.hex_digits) with 16%nat. lia.
Qed.

Lemma hex_byte_inj b b' :
  is_byte b -> is_byte b' -> Md5.hex_byte b = Md5.hex_byte b' -> b = b'.
Proof.
  unfold is_byte, Md5.hex_byte. intros Hb Hb' H.
  injection H as Hhi Hlo.
  rewrite !Z.shiftr_div_pow2 in Hhi by lia.
  change 15 with (Z.ones 4) in Hlo. rewrite !Z.land_ones in Hlo by lia.
  change (2 ^ 4) with 16 in *.
  apply hex_digit_inj in Hhi;
    [| split; [apply Z.div_pos; lia | apply Z.div_lt_upper_bound; lia] ..].
  apply hex_digit_inj in Hlo; [| apply Z.mod_pos_bound; lia ..].
  rewrite (Z.div_mod b 16), (Z.div_mod b' 16) by lia. congruence.
Qed.

Lemma hex_bytes_inj l :
  forall l',
    Forall is_byte l -> Forall is_byte l' ->
    flat_map Md5.hex_byte l = flat_map Md5.hex_byte l' -> l = l'.
Proof.
  induction l as [| b l IH]; intros [| b' l'] Hl Hl' H;
    try reflexivity; try discriminate.
  apply Forall_cons_iff in Hl, Hl'.
  destruct Hl as [Hb Hl], Hl' as [Hb' Hl'].
  cbn [flat_map] in H. unfold Md5.hex_byte at 1 3 in H.
  injection H as Ehi Elo Erest. f_equal.
  - apply hex_byte_inj; try assumption. unfold Md5.hex_byte. congruence.
  - now apply IH.
Qed.

Lemma hexdigest_eq_iff m m' :
  Md5.hexdigest m = Md5.hexdigest m' <-> Md5.digest m = Md5.digest m'.
Proof.
  unfold Md5.hexdigest. split; [| now intros ->].
  intros H. apply (f_equal list_ascii_of_string) in H.
  rewrite !list_ascii_of_string_of_list_ascii in H.
  apply hex_bytes_inj in H; auto using digest_bytes.
Qed.

Lemma extracted_id MUSIC_DIR fs p t :
  extracted MUSIC_DIR fs p = Some t ->
  Track.id t = Md5.hexdigest (encode (path_str p)).
Proof.
  intros H. apply extracted_some in H.
  destruct H as (oa & st & dur & n & _ & _ & _ & _ & ->). reflexivity.
Qed.

(** C6, amended.  The id of a record is the MD5 digest of the path string,
    written as 32 lower-case hexadecimal digits.  It depends on nothing
    else: two extractions of the same path string yield the same id,
    whatever the file system holds and whatever MUSIC_DIR is.  Two paths
    get the same id exactly when their path strings have the same MD5
    digest: the id changes with the path unless the digests collide. *)
Theorem id_is_md5_of_path_string MUSIC_DIR1 fs1 MUSIC_DIR2 fs2 p1 p2 t1 t2 :
  run (_extract_track_info MUSIC_DIR1 fs1 p1) = Ret (Some t1) ->
  run (_extract_track_info MUSIC_DIR2 fs2 p2) = Ret (Some t2) ->
  Track.id t1 = Md5.hexdigest (encode (path_str p1)) /\
  String.length (Track.id t1) = 32%nat /\
  (forall c, In c (list_ascii_of_string (Track.id t1)) -> is_hex c = true) /\
  (path_str p1 = path_str p2 -> Track.id t1 = Track.id t2) /\
  (Track.id t1 = Track.id t2 <->
   Md5.digest (encode (path_str p1)) = Md5.digest (encode (path_str p2))).
Proof.
  rewrite !run_extract. intros [= H1] [= H2].
  apply extracted_id in H1, H2. rewrite H1, H2.
  split; [reflexivity |].
  split; [apply hexdigest_length |].
  split; [apply hexdigest_is_hex |].
  split; [now intros -> | apply hexdigest_eq_iff].
Qed.

Lemma id_witness :
  exists t1 t2,
    run (_extract_track_info Sample.media_music Sample.disk Sample.a_mp3)
      = Ret (Some t1) /\
    run (_extract_track_info ["/"]%string Sample.disk Sample.a_mp3)
      = Ret (Some t2) /\
    Track.relative_path t1 <> Track.relative_path t2 /\
    Track.id t1 = Track.id t2.
Proof.
  eexists. eexists.
  assert (H1 : run (_extract_track_info Sample.media_music Sample.disk
                      Sample.a_mp3) = Ret (Some _))
    by (vm_compute; reflexivity).
  assert (H2 : run (_extract_track_info ["/"]%string Sample.disk
                      Sample.a_mp3) = Ret (Some _))
    by (vm_compute; reflexivity).
  split; [exact H1 |]. split; [exact H2 |].
  split; [simpl; discriminate |].
  exact (proj1 (proj2 (proj2 (proj2
           (id_is_md5_of_path_string _ _ _ _ _ _ _ _ H1 H2)))) eq_refl).
Defined.

(** C6 as stated fails: the two files of the working directory have
    different paths, and their records carry the same id. *)
Lemma distinct_paths_same_id :
  exists t1 t2,
    run (_extract_track_info [] Sample.disk [Sample.collision_a])
      = Ret (Some t1) /\
    run (_extract_track_info [] Sample.disk [Sample.collision_e])
      = Ret (Some t2) /\
    path_str [Sample.collision_a] <> path_str [Sample.collision_e] /\
    Track.path t1 <> Track.path t2 /\
    Track.id t1 = Track.id t2.
Proof.
  eexists. eexists.
  split; [vm_compute; reflexivity |].
  split; [vm_compute; reflexivity |].
  assert (H : path_str [Sample.collision_a] <> path_str [Sample.collision_e]).
  { intros H. apply String.eqb_eq in H. vm_compute in H. discriminate. }
  split; [exact H |]. split; [exact H |]. reflexivity.
Qed.

(** ** Search *)

Lemma subseq_filter {A} (f : A -> bool) l : subseq (filter f l) l.
Proof.
  induction l as [| x l IH]; simpl; [constructor |].
  destruct (f x); now constructor.
Qed.

Lemma subseq_refl {A} (l : list A) : subseq l l.
Proof. induction l; now constructor. Qed.

Lemma subseq_In {A} (l1 l2 : list A) :
  subseq l1 l2 -> forall x, In x l1 -> In x l2.
Proof.
  induction 1; intros y Hy; simpl in *; [exact Hy | auto |].
  destruct Hy; auto.
Qed.

Lemma search_tracks_subseq q st :
  subseq (search_tracks q st) (music_library st).
Proof.
  unfold search_tracks.
  destruct (negb (truthy _)); [apply subseq_refl | apply subseq_filter].
Qed.

(** C7. A search with no query or with the empty query returns the whole
    catalog as it is.  A search with a non-empty query returns, in catalog
    order, exactly the tracks for which the lower-cased query occurs in
    the lower-cased title, or in the lower-cased artist, or in the
    lower-cased album.  In every case the result is a subsequence of the
    catalog, so each of its tracks is a track of the catalog. *)
Theorem search_is_case_insensitive_filter q st :
  search_tracks None st = music_library st /\
  search_tracks (Some EmptyString) st = music_library st /\
  search_tracks (Some q) st =
    match q with
    | EmptyString => music_library st
    | String _ _ =>
        filter (fun track =>
                  contains (lower q) (lower (Track.title track))
                  || contains (lower q) (lower (Track.artist track))
                  || contains (lower q) (lower (Track.album track)))
               (music_library st)
    end /\
  subseq (search_tracks (Some q) st) (music_library st) /\
  (forall track, In track (search_tracks (Some q) st) ->
                 In track (music_library st)).
Proof.
  split; [reflexivity |]. split; [reflexivity |].
  split; [destruct q; reflexivity |].
  split; [apply search_tracks_subseq |].
  apply subseq_In, search_tracks_subseq.
Qed.

(** ** Duration and size *)

Lemma round_half_even_near q :
  let k := round_half_even q in
  let n := Qnum q in
  let d := Z.pos (Qden q) in
  - d <= 2 * (k * d - n) <= d.
Proof.
  unfold round_half_even. cbv zeta.
  set (n := Qnum q). set (d := Z.pos (Qden q)).
  assert (Hd : 0 < d) by reflexivity.
  pose proof (Z.div_mod n d ltac:(lia)) as Hdm.
  pose proof (Z.mod_pos_bound n d Hd) as Hr.
  set (f := n / d) in *. set (r := n mod d) in *.
  clearbody f r n d.
  subst n.
  destruct (2 * r ?= d) eqn:E.
  - apply Z.compare_eq in E. destruct (Z.even f); lia.
  - apply -> Z.compare_lt_iff in E. lia.
  - apply -> Z.compare_gt_iff in E. lia.
Qed.

Lemma round_half_even_nonneg q : (0 <= q)%Q -> 0 <= round_half_even q.
Proof.
  unfold Qle. simpl. rewrite Z.mul_1_r. intros Hn.
  unfold round_half_even.
  assert (0 <= Qnum q / Z.pos (Qden q)) by (apply Z.div_pos; lia).
  destruct (2 * (Qnum q mod Z.pos (Qden q)) ?= Z.pos (Qden q));
    [destruct (Z.even _) | |]; lia.
Qed.

Lemma round2_nonneg x : (0 <= x)%Q -> (0 <= round2 x)%Q.
Proof.
  intros Hx. unfold round2.
  assert (H : 0 <= round_half_even (x * 100)).
  { apply round_half_even_nonneg. apply Qmult_le_0_compat; [exact Hx |].
    discriminate. }
  unfold Qle. simpl. lia.
Qed.

Lemma hundredths_near (a : Z) (b : positive) (k : Z) :
  - Z.pos b <= 2 * (k * Z.pos b - a * 100) <= Z.pos b ->
  ((a # b) - (1 # 200) <= k # 100)%Q /\ (k # 100 <= (a # b) + (1 # 200))%Q.
Proof.
  intros H. unfold Qle, Qminus, Qplus, Qopp. simpl.
  rewrite !Pos2Z.inj_mul. change (Z.neg b) with (- Z.pos b).
  set (d := Z.pos b) in *. clearbody d. split; nia.
Qed.

Lemma round2_near x :
  (x - (1 # 200) <= round2 x)%Q /\ (round2 x <= x + (1 # 200))%Q.
Proof.
  pose proof (round_half_even_near (x * 100)) as H. cbv zeta in H.
  unfold round2. destruct x as [a b].
  apply hundredths_near.
  simpl in H. rewrite Pos.mul_1_r in H. exact H.
Qed.

Lemma round2_zero : (round2 0 == 0)%Q.
Proof. reflexivity. Qed.

Lemma In_successes MUSIC_DIR fs files t :
  In t (successes MUSIC_DIR fs files) ->
  exists p, In p files /\ supported p = true /\
            extracted MUSIC_DIR fs p = Some t.
Proof.
  unfold successes. intros H. apply in_flat_map in H.
  destruct H as (p & Hp & Ht). apply filter_In in Hp.
  exists p. destruct (extracted MUSIC_DIR fs p) as [t' |]; [| destruct Ht].
  destruct Ht as [-> | []]. tauto.
Qed.

Lemma extracted_duration MUSIC_DIR fs p t :
  extracted MUSIC_DIR fs p = Some t ->
  Track.duration t =
    round2 (match reported_length fs p with Some l => l | None => 0%Q end) /\
  0 <= Track.size t.
Proof.
  intros H. apply extracted_some in H.
  destruct H as (oa & st & dur & n & Hm & Hr & _ & _ & ->).
  split; [| apply N2Z.is_nonneg].
  unfold reported_length. rewrite Hm. simpl.
  destruct oa as [audio |]; destruct Hr as [_ ->]; [| reflexivity].
  unfold read_duration. destruct (info audio) as [i |]; [| reflexivity].
  destruct (info_length i); reflexivity.
Qed.

(** C9, amended.  Every record a scan produces has a non-negative size.
    Its duration is 0 when the container of its file exposes no length;
    otherwise it is the length rounded to hundredths (a multiple of 1/100
    at most 1/200 away from the length), which is non-negative whenever
    the length the container reports is non-negative. *)
Theorem scanned_record_bounds MUSIC_DIR fs d tracks log t :
  scan_directory MUSIC_DIR fs d [] = (Ret tracks, log) ->
  In t tracks ->
  0 <= Track.size t /\
  exists p,
    In p (rglob fs d) /\
    run (_extract_track_info MUSIC_DIR fs p) = Ret (Some t) /\
    match reported_length fs p with
    | None => (Track.duration t == 0)%Q
    | Some l =>
        Track.duration t = round2 l /\
        (exists k : Z, Track.duration t = k # 100) /\
        (l - (1 # 200) <= Track.duration t)%Q /\
        (Track.duration t <= l + (1 # 200))%Q /\
        ((0 <= l)%Q -> (0 <= Track.duration t)%Q)
    end.
Proof.
  intros Hscan Hin.
  destruct (scan_directory_run MUSIC_DIR fs d []) as [log' H].
  rewrite H in Hscan. injection Hscan as <- _.
  apply In_successes in Hin. destruct Hin as (p & Hp & _ & Ht).
  destruct (extracted_duration _ _ _ _ Ht) as [Hd Hs].
  split; [exact Hs |]. exists p. split; [exact Hp |].
  split; [rewrite run_extract; now f_equal |].
  rewrite Hd. destruct (reported_length fs p) as [l |].
  - split; [reflexivity |]. split; [eexists; reflexivity |].
    split; [apply round2_near |]. split; [apply round2_near |].
    apply round2_nonneg.
  - apply round2_zero.
Qed.

Lemma scanned_record_witness :
  exists tracks log t,
    scan_directory Sample.media_music Sample.disk Sample.media_music []
      = (Ret tracks, log) /\
    hd_error tracks = Some t /\
    0 <= Track.size t.
Proof.
  assert (H : exists tracks log t r,
             scan_directory Sample.media_music Sample.disk
               Sample.media_music [] = (Ret tracks, log) /\
             tracks = t :: r)
    by (vm_compute; do 4 eexists; split; reflexivity).
  destruct H as (tracks & log & t & r & Hscan & Hl).
  exists tracks, log, t. split; [exact Hscan |].
  split; [rewrite Hl; reflexivity |].
  refine (proj1 (scanned_record_bounds _ _ _ _ _ t Hscan _)).
  rewrite Hl. left. reflexivity.
Defined.

(** C9 as stated fails: the container of r.ogg reports the length -1, and
    the record the scan produces for it has the duration -1. *)
Lemma negative_duration_scanned :
  exists tracks log t,
    scan_directory Sample.media_music Sample.disk Sample.media_music []
      = (Ret tracks, log) /\
    In t tracks /\
    Track.filename t = "r.ogg"%string /\
    reported_length Sample.disk Sample.r_ogg = Some (-1 # 1)%Q /\
    (Track.duration t < 0)%Q.
Proof.
  eexists. eexists. eexists.
  split; [vm_compute; reflexivity |].
  split; [do 3 right; left; reflexivity |].
  split; [reflexivity |]. split; [reflexivity |]. reflexivity.
Qed.

(** ** Paths yielded by the traversal *)

Lemma rglob_node_extends :
  forall n base p, In p (rglob_node base n) -> exists r, p = (base ++ r)%list.
Proof.
  fix IH 1. intros [sz parsed | sz es] base p; simpl.
  - intros [].
  - rewrite in_app_iff. intros [H | H].
    + apply in_map_iff in H. destruct H as (e & <- & _).
      eexists; reflexivity.
    + revert H. induction es as [| [k c] es IHes]; simpl.
      * intros [].
      * rewrite in_app_iff. intros [H | H]; [| exact (IHes H)].
        destruct (IH c (base ++ [k])%list p H) as [r ->].
        exists (k :: r). now rewrite <- app_assoc.
Qed.

Lemma rglob_extends fs d p :
  In p (rglob fs d) -> exists r, p = (d ++ r)%list.
Proof.
  unfold rglob. destruct (resolve fs d) as [n |]; [| intros []].
  apply rglob_node_extends.
Qed.

Lemma starts_with_app d r : starts_with d (d ++ r) = true.
Proof.
  induction d as [| x d IH]; [reflexivity |].
  simpl. now rewrite String.eqb_refl.
Qed.

Lemma starts_with_comparable a :
  forall b p,
    starts_with a p = true -> starts_with b p = true ->
    starts_with a b = true \/ starts_with b a = true.
Proof.
  induction a as [| x a IH]; intros b p Ha Hb; [now left |].
  destruct b as [| y b]; [now right |].
  destruct p as [| z p]; [discriminate |].
  simpl in *. apply andb_true_iff in Ha, Hb.
  destruct Ha as [Hx Ha], Hb as [Hy Hb].
  apply String.eqb_eq in Hx, Hy. subst.
  rewrite String.eqb_refl. simpl. eauto.
Qed.

Lemma disjoint_not_relative fs d MUSIC_DIR p :
  disjoint d MUSIC_DIR -> In p (rglob fs d) ->
  is_relative_to p MUSIC_DIR = false.
Proof.
  intros [Hd Hm] Hp. apply rglob_extends in Hp. destruct Hp as [r ->].
  unfold is_relative_to. destruct MUSIC_DIR as [| x m]; [discriminate |].
  destruct (starts_with (x :: m) (d ++ r)) eqn:E; [| reflexivity].
  destruct (starts_with_comparable _ _ _ E (starts_with_app d r)); congruence.
Qed.

Lemma not_relative_extracts_none MUSIC_DIR fs p :
  is_relative_to p MUSIC_DIR = false -> extracted MUSIC_DIR fs p = None.
Proof.
  intros H. destruct (extracted MUSIC_DIR fs p) as [t |] eqn:E;
    [| reflexivity].
  apply extracted_some in E.
  destruct E as (oa & st & dur & n & _ & _ & Hrel & _). congruence.
Qed.

Lemma successes_nil MUSIC_DIR fs files :
  (forall p, In p files -> extracted MUSIC_DIR fs p = None) ->
  successes MUSIC_DIR fs files = [].
Proof.
  induction files as [| p files IH]; intros H; [reflexivity |].
  rewrite successes_cons, (H p (or_introl eq_refl)), IH.
  - now destruct (supported p).
  - intros q Hq. apply H. now right.
Qed.

(** ** The relative path *)

(** C10. The relative path of a record is taken against MUSIC_DIR and not
    against the directory being scanned: a record exists only for a path
    under MUSIC_DIR, and its relative path is what follows MUSIC_DIR in
    the path; for a path not under MUSIC_DIR the extractor returns None;
    hence the scan of a directory disjoint from MUSIC_DIR returns no
    record, whatever the directory holds. *)
Theorem relative_path_is_against_MUSIC_DIR MUSIC_DIR fs :
  (forall p t,
      run (_extract_track_info MUSIC_DIR fs p) = Ret (Some t) ->
      is_relative_to p MUSIC_DIR = true /\
      Track.relative_path t
        = path_str (skipn (List.length MUSIC_DIR) p)) /\
  (forall p,
      is_relative_to p MUSIC_DIR = false ->
      run (_extract_track_info MUSIC_DIR fs p) = Ret None) /\
  (forall d,
      disjoint d MUSIC_DIR ->
      run (scan_directory MUSIC_DIR fs d) = Ret []).
Proof.
  split; [| split].
  - intros p t. rewrite run_extract. intros [= H].
    apply extracted_some in H.
    destruct H as (oa & st & dur & n & _ & _ & Hrel & _ & ->).
    split; [exact Hrel | reflexivity].
  - intros p H. rewrite run_extract. f_equal.
    now apply not_relative_extracts_none.
  - intros d Hd. unfold run.
    destruct (scan_directory_run MUSIC_DIR fs d []) as [log ->].
    simpl. f_equal. apply successes_nil. intros p Hp.
    apply not_relative_extracts_none.
    exact (disjoint_not_relative fs d MUSIC_DIR p Hd Hp).
Qed.

Lemma disjoint_scan_witness :
  rglob Sample.disk ["/"; "tmp"]%string = [Sample.x_wav] /\
  supported Sample.x_wav = true /\
  mutagen_File Sample.disk Sample.x_wav = Ret None /\
  run (scan_directory Sample.media_music Sample.disk ["/"; "tmp"]%string)
    = Ret [].
Proof.
  split; [reflexivity |]. split; [reflexivity |]. split; [reflexivity |].
  apply (proj2 (proj2 (relative_path_is_against_MUSIC_DIR
                         Sample.media_music Sample.disk))).
  split; reflexivity.
Defined.

(* ================================================================= *)
(** * Further properties *)

(** ** hashlib.md5 against the test suite of RFC 1321 *)

Example md5_test_suite :
  map (fun s => Md5.hexdigest (encode s))
      [""; "a"; "abc"; "message digest"; "abcdefghijklmnopqrstuvwxyz"]%string
  = ["d41d8cd98f00b204e9800998ecf8427e"; "0cc175b9c0f1b6a831c399e269772661";
     "900150983cd24fb0d6963f7d28e17f72"; "f96b697d7cb7938d525a2f31aaf161d0";
     "c3fcd3d76192e4007dfb496cca67e13b"]%string.
Proof. vm_compute. reflexivity. Qed.

(** ** The log of a scan *)

Lemma failures_cons MUSIC_DIR fs p files :
  failures MUSIC_DIR fs (p :: files) =
  ((if supported p then
      match extract_body MUSIC_DIR fs p with
      | Ret _ => []
      | Raise e => [mkLog ERROR (ExtractFailed p e)]
      end
    else []) ++ failures MUSIC_DIR fs files)%list.
Proof.
  unfold failures. simpl. destruct (supported p); reflexivity.
Qed.

Lemma scan_loop_log MUSIC_DIR fs files :
  forall tracks l,
    scan_loop MUSIC_DIR fs files tracks l
    = (Ret (tracks ++ successes MUSIC_DIR fs files)%list,
       (l ++ failures MUSIC_DIR fs files)%list).
Proof.
  induction files as [| p files IH]; intros tracks l.
  - simpl. unfold ret, successes, failures. simpl. now rewrite !app_nil_r.
  - cbn [scan_loop]. rewrite successes_cons, failures_cons.
    destruct (supported p); [| apply IH].
    unfold bind at 1. unfold try_except. unfold bind at 1.
    rewrite extract_run, extracted_body.
    destruct (extract_body MUSIC_DIR fs p) as [t | e]; unfold ret at 1.
    + rewrite IH. now rewrite <- app_assoc.
    + rewrite IH. now rewrite <- app_assoc.
Qed.


Lemma scan_directory_log MUSIC_DIR fs d l :
  path_exists fs d = true ->
  scan_directory MUSIC_DIR fs d l
  = (Ret (successes MUSIC_DIR fs (rglob fs d)),
     (l ++ mkLog INFO (ScanStarted d)
        :: failures MUSIC_DIR fs (rglob fs d)
        ++ [mkLog INFO
              (ScanFinished
                 (List.length (successes MUSIC_DIR fs (rglob fs d))))])%list).
Proof.
  intros E. unfold scan_directory. rewrite E. simpl.
  unfold bind at 1. unfold logger at 1. unfold bind at 1.
  rewrite scan_loop_log. simpl. unfold bind, logger, ret.
  f_equal. rewrite <- !app_assoc. reflexivity.
Qed.



Lemma failures_are_errors MUSIC_DIR fs files :
  Forall (fun r => log_level r = ERROR /\
                   exists p e, log_message r = ExtractFailed p e)
         (failures MUSIC_DIR fs files).
Proof.
  apply Forall_forall. intros r H. unfold failures in H.
  apply in_flat_map in H. destruct H as (p & _ & H).
  destruct (extract_body MUSIC_DIR fs p) as [t | e]; [destruct H |].
  destruct H as [<- | []]. split; [reflexivity |].
  exists p, e. reflexivity.
Qed.

(** X2. The [except] branch of the loop of [scan_directory] never runs:
    no scan logs the "read failed" warning, because the extractor catches
    every exception itself.  The only WARNING a scan can log is the one
    for a missing directory. *)
Theorem scan_never_logs_read_failure MUSIC_DIR fs d l :
  exists tracks new,
    scan_directory MUSIC_DIR fs d l = (Ret tracks, (l ++ new)%list) /\
    Forall (fun r => forall p e, log_message r <> ReadFailed p e) new /\
    Forall (fun r => log_level r = WARNING ->
                     log_message r = DirectoryMissing d) new.
Proof.
  destruct (path_exists fs d) eqn:E.
  - rewrite (scan_directory_log MUSIC_DIR fs d l E).
    eexists. eexists. split; [reflexivity |].
    pose proof (failures_are_errors MUSIC_DIR fs (rglob fs d)) as Hf.
    split.
    + constructor; [intros p e; discriminate |].
      apply Forall_app. split.
      * eapply Forall_impl; [| exact Hf].
        intros r [_ (p0 & e0 & ->)] p e. discriminate.
      * constructor; [intros p e; discriminate | constructor].
    + constructor; [discriminate |].
      apply Forall_app. split.
      * eapply Forall_impl; [| exact Hf].
        intros r [-> _]. discriminate.
      * constructor; [discriminate | constructor].
  - exists [], [mkLog WARNING (DirectoryMissing d)].
    split.
    + unfold scan_directory. rewrite E. reflexivity.
    + split.
      * constructor; [intros p e; discriminate | constructor].
      * constructor; [reflexivity | constructor].
Qed.

(** ** Records and the files they come from *)

Lemma scanned_from_file MUSIC_DIR fs d l tracks log t :
  scan_directory MUSIC_DIR fs d l = (Ret tracks, log) ->
  In t tracks ->
  exists p, In p (rglob fs d) /\ supported p = true /\
            extracted MUSIC_DIR fs p = Some t.
Proof.
  intros Hscan Hin.
  destruct (scan_directory_run MUSIC_DIR fs d l) as [log' H].
  rewrite H in Hscan. injection Hscan as <- _.
  now apply In_successes.
Qed.

Lemma rfind_drop c s i :
  rfind c s = Some i -> exists rest, drop i s = String c rest.
Proof.
  revert i. induction s as [| a s IH]; intros i; simpl; [discriminate |].
  destruct (rfind c s) as [j |].
  - intros [= <-]. simpl. now apply IH.
  - destruct (Ascii.eqb a c) eqn:E; [| discriminate].
    intros [= <-]. apply Ascii.eqb_eq in E. subst. now exists s.
Qed.

Lemma take_drop n s : (take n s ++ drop n s)%string = s.
Proof.
  revert s. induction n as [| n IH]; intros [| c s]; simpl;
    try reflexivity.
  now rewrite IH.
Qed.

Lemma lower_drop n s : lower (drop n s) = drop n (lower s).
Proof.
  revert s. induction n as [| n IH]; intros [| c s]; simpl;
    try reflexivity.
  apply IH.
Qed.

(** The name of a file with a suffix is a non-empty stem followed by the
    suffix, which starts with a dot. *)
Lemma name_stem_suffix p :
  suffix p <> EmptyString ->
  exists ext,
    suffix p = String "."%char ext /\
    name p = (stem p ++ "." ++ ext)%string /\
    stem p <> EmptyString.
Proof.
  unfold suffix, stem, suffix_index.
  destruct (rfind "."%char (name p)) as [i |] eqn:Er; [| now intros []].
  destruct ((0 <? i)%nat && (i <? String.length (name p) - 1)%nat) eqn:Ei;
    [| now intros []].
  intros _. destruct (rfind_drop _ _ _ Er) as [ext Hd].
  exists ext. split; [exact Hd |]. split.
  - change ("." ++ ext)%string with (String "."%char ext).
    rewrite <- Hd. symmetry. apply take_drop.
  - apply andb_true_iff in Ei. destruct Ei as [Hi _].
    apply Nat.ltb_lt in Hi.
    destruct i as [| i]; [lia |].
    destruct (name p); [discriminate | discriminate].
Qed.

Lemma supported_format p :
  supported p = true ->
  suffix p <> EmptyString /\ In (drop 1 (lower (suffix p))) formats.
Proof.
  unfold supported, SUPPORTED_FORMATS. intros H.
  apply existsb_exists in H. destruct H as (x & Hx & He).
  apply String.eqb_eq in He. rewrite He.
  split.
  - intros C. rewrite C in He. simpl in He. subst x.
    repeat (destruct Hx as [Hx | Hx]; [discriminate |]). destruct Hx.
  - repeat (destruct Hx as [<- | Hx]; [simpl; tauto |]). destruct Hx.
Qed.

(** X3. Every record a scan produces has one of the six formats mp3, mp4,
    m4a, flac, ogg, wav, and its file name is a non-empty stem, a dot and
    an extension that lower-cases to the format. *)
Theorem scanned_record_format MUSIC_DIR fs d tracks log t :
  scan_directory MUSIC_DIR fs d [] = (Ret tracks, log) ->
  In t tracks ->
  In (Track.format t) formats /\
  exists base ext,
    Track.filename t = (base ++ "." ++ ext)%string /\
    lower ext = Track.format t /\
    base <> EmptyString.
Proof.
  intros Hscan Hin.
  destruct (scanned_from_file _ _ _ _ _ _ _ Hscan Hin) as (p & _ & Hs & Ht).
  apply extracted_some in Ht.
  destruct Ht as (oa & st & dur & n & _ & _ & _ & _ & ->).
  destruct (supported_format p Hs) as [Hne Hf].
  split; [exact Hf |].
  destruct (name_stem_suffix p Hne) as (ext & Hsuf & Hname & Hstem).
  exists (stem p), ext. split; [exact Hname |]. split; [| exact Hstem].
  unfold record_of. cbn [Track.format]. rewrite <- lower_drop, Hsuf.
  reflexivity.
Qed.

Lemma scanned_record_format_witness :
  exists tracks log t,
    scan_directory Sample.media_music Sample.disk Sample.media_music []
      = (Ret tracks, log) /\
    nth_error tracks 4 = Some t /\
    Track.filename t = "b.OGG"%string /\
    In (Track.format t) formats.
Proof.
  assert (H : exists tracks log t,
             scan_directory Sample.media_music Sample.disk
               Sample.media_music [] = (Ret tracks, log) /\
             nth_error tracks 4 = Some t /\
             Track.filename t = "b.OGG"%string)
    by (vm_compute; do 3 eexists; repeat split; reflexivity).
  destruct H as (tracks & log & t & Hscan & Hn & Hf).
  exists tracks, log, t. repeat (split; [assumption |]).
  exact (proj1 (scanned_record_format _ _ _ _ _ t Hscan
                  (nth_error_In _ _ Hn))).
Defined.

Lemma stat_size_exists fs p n : stat_size fs p = Ret n -> path_exists fs p = true.
Proof.
  unfold stat_size, path_exists. now destruct (resolve fs p).
Qed.

(** X4. Every record a scan produces stands for a path the traversal of
    the scanned directory yields: the path exists in the file system,
    lies below the scanned directory and under MUSIC_DIR, and is the
    record's path. *)
Theorem scanned_record_file_exists MUSIC_DIR fs d tracks log t :
  scan_directory MUSIC_DIR fs d [] = (Ret tracks, log) ->
  In t tracks ->
  exists p r,
    In p (rglob fs d) /\ p = (d ++ r)%list /\
    path_exists fs p = true /\
    is_relative_to p MUSIC_DIR = true /\
    Track.path t = path_str p.
Proof.
  intros Hscan Hin.
  destruct (scanned_from_file _ _ _ _ _ _ _ Hscan Hin) as (p & Hp & _ & Ht).
  apply extracted_some in Ht.
  destruct Ht as (oa & st & dur & n & _ & _ & Hrel & Hst & ->).
  destruct (rglob_extends fs d p Hp) as [r Hr].
  exists p, r. repeat split; try assumption.
  now apply stat_size_exists with n.
Qed.

Lemma scanned_record_file_witness :
  exists tracks log t,
    scan_directory Sample.media_music Sample.disk Sample.media_music []
      = (Ret tracks, log) /\
    hd_error tracks = Some t /\
    exists p, path_exists Sample.disk p = true /\ Track.path t = path_str p.
Proof.
  assert (H : exists tracks log t r,
             scan_directory Sample.media_music Sample.disk
               Sample.media_music [] = (Ret tracks, log) /\
             tracks = t :: r)
    by (vm_compute; do 4 eexists; split; reflexivity).
  destruct H as (tracks & log & t & r & Hscan & Hl).
  exists tracks, log, t. split; [exact Hscan |].
  split; [rewrite Hl; reflexivity |].
  assert (Hin : In t tracks) by (rewrite Hl; now left).
  destruct (scanned_record_file_exists _ _ _ _ _ t Hscan Hin)
    as (p & r' & _ & _ & He & _ & Hp).
  exists p. split; assumption.
Defined.

(** ** Rescanning MUSIC_DIR *)





(** ** Searching *)

Lemma lower_app a b : lower (a ++ b) = (lower a ++ lower b)%string.
Proof. induction a as [| c a IH]; simpl; congruence. Qed.

Lemma prefix_iff a s :
  String.prefix a s = true <-> exists post, s = (a ++ post)%string.
Proof.
  revert s. induction a as [| c a IH]; intros s; simpl.
  - split; [intros _; now exists s | now destruct s].
  - destruct s as [| c' s]; simpl;
      [split; [discriminate | intros [x H]; discriminate] |].
    destruct (ascii_dec c c') as [<- | Hne].
    + rewrite IH. split; intros [post H]; exists post; congruence.
    + split; [discriminate | intros [post H]; congruence].
Qed.

Lemma contains_iff sub s :
  contains sub s = true <->
  exists pre post, s = (pre ++ sub ++ post)%string.
Proof.
  induction s as [| c s IH]; cbn [contains];
    rewrite orb_true_iff, prefix_iff.
  - split.
    + intros [[post H] | H]; [| discriminate]. now exists EmptyString, post.
    + intros ([| c pre] & post & H); [left; now exists post | discriminate].
  - rewrite IH. split.
    + intros [[post H] | (pre & post & H)].
      * now exists EmptyString, post.
      * exists (String c pre), post. simpl. congruence.
    + intros ([| c' pre] & post & H).
      * left. now exists post.
      * right. exists pre, post. simpl in H. congruence.
Qed.

Lemma contains_lower sub s :
  contains sub s = true -> contains (lower sub) (lower s) = true.
Proof.
  rewrite !contains_iff. intros (pre & post & ->).
  exists (lower pre), (lower post). now rewrite !lower_app.
Qed.

Lemma contains_trans a b c :
  contains a b = true -> contains b c = true -> contains a c = true.
Proof.
  rewrite !contains_iff. intros (p1 & q1 & ->) (p2 & q2 & ->).
  exists (p2 ++ p1)%string, (q1 ++ q2)%string.
  induction p2 as [| x p2 IH]; simpl.
  - induction p1 as [| y p1 IH1]; simpl; [| congruence].
    induction a as [| z a IHa]; simpl; [| congruence].
    reflexivity.
  - congruence.
Qed.

Lemma lower_char_idem c : lower_char (lower_char c) = lower_char c.
Proof.
  destruct c as [[] [] [] [] [] [] [] []]; reflexivity.
Qed.

Lemma lower_idem s : lower (lower s) = lower s.
Proof.
  induction s as [| c s IH]; simpl; [reflexivity |].
  now rewrite lower_char_idem, IH.
Qed.

Lemma lower_nonempty s : s <> EmptyString -> truthy (lower s) = true.
Proof. destruct s; [congruence | reflexivity]. Qed.

Lemma matches_substring q t :
  contains q (Track.title t) = true \/
  contains q (Track.artist t) = true \/
  contains q (Track.album t) = true ->
  matches (lower q) t = true.
Proof.
  unfold matches. intros [H | [H | H]]; apply contains_lower in H; rewrite H;
    rewrite ?orb_true_r; reflexivity.
Qed.

(** X6. Titles, artists, albums and queries being strings of the range
    U+0000..U+00FF, on which [str.lower] maps character by character: a
    track of the catalog is found by every non-empty piece of its title,
    of its artist or of its album, typed in any letter case. *)
Theorem search_finds_any_piece_of_a_field st t q q' :
  In t (music_library st) ->
  q <> EmptyString ->
  lower q' = lower q ->
  contains q (Track.title t) = true \/
  contains q (Track.artist t) = true \/
  contains q (Track.album t) = true ->
  In t (search_tracks (Some q') st).
Proof.
  intros Hin Hq Hl Hc. unfold search_tracks. rewrite Hl.
  rewrite (lower_nonempty q Hq). simpl.
  apply filter_In. split; [exact Hin |]. now apply matches_substring.
Qed.

Lemma search_finds_witness :
  exists t,
    hd_error (successes Sample.media_music Sample.disk
                (rglob Sample.disk Sample.media_music)) = Some t /\
    Track.title t = "Song A"%string /\
    In t (search_tracks (Some "SONG"%string)
            (mkServer (successes Sample.media_music Sample.disk
                         (rglob Sample.disk Sample.media_music)))).
Proof.
  assert (H : exists t r,
             successes Sample.media_music Sample.disk
               (rglob Sample.disk Sample.media_music) = t :: r /\
             Track.title t = "Song A"%string)
    by (vm_compute; do 2 eexists; split; reflexivity).
  destruct H as (t & r & Hl & Ht). exists t. rewrite Hl.
  split; [reflexivity |]. split; [exact Ht |].
  apply (search_finds_any_piece_of_a_field
           (mkServer (t :: r)) t "Song"%string "SONG"%string).
  - now left.
  - discriminate.
  - reflexivity.
  - left. rewrite Ht. reflexivity.
Defined.

(** X7. The letter case of the query does not matter: the lower-cased
    query gives the same result as the query. *)
Theorem search_ignores_query_case q st :
  search_tracks (Some (lower q)) st = search_tracks (Some q) st.
Proof. unfold search_tracks. now rewrite lower_idem. Qed.

Lemma filter_subseq_impl {A} (f g : A -> bool) l :
  (forall x, f x = true -> g x = true) ->
  subseq (filter f l) (filter g l).
Proof.
  intros H. induction l as [| x l IH]; simpl; [constructor |].
  destruct (f x) eqn:Ef.
  - rewrite (H x Ef). now constructor.
  - destruct (g x); [now constructor | exact IH].
Qed.

Lemma matches_weaken q1 q2 t :
  contains q1 q2 = true -> matches q2 t = true -> matches q1 t = true.
Proof.
  unfold matches. intros Hc. rewrite !orb_true_iff.
  intros [[H | H] | H]; [left; left | left; right | right];
    now apply contains_trans with q2.
Qed.

(** X8. Refining a query narrows the result: when the query [q1] is a
    piece of the query [q2] (letter case aside), the tracks found for [q2]
    are, in the same order, among the tracks found for [q1]. *)
Theorem search_refinement_narrows q1 q2 st :
  contains (lower q1) (lower q2) = true ->
  subseq (search_tracks (Some q2) st) (search_tracks (Some q1) st).
Proof.
  intros Hc. unfold search_tracks.
  destruct (lower q1) as [| c1 s1] eqn:E1; simpl.
  - destruct (negb (truthy (lower q2)));
      [apply subseq_refl | apply subseq_filter].
  - destruct (lower q2) as [| c2 s2] eqn:E2; [discriminate |]. simpl.
    apply filter_subseq_impl. intros t. now apply matches_weaken.
Qed.

Lemma search_refinement_witness :
  subseq
    (search_tracks (Some "song a"%string)
       (mkServer (successes Sample.media_music Sample.disk
                    (rglob Sample.disk Sample.media_music))))
    (search_tracks (Some "SONG"%string)
       (mkServer (successes Sample.media_music Sample.disk
                    (rglob Sample.disk Sample.media_music)))).
Proof.
  apply search_refinement_narrows. reflexivity.
Defined.

(** ** From a path to its string and back *)

Lemma split_no_sep x : has_sep x = false -> split x = [x].
Proof.
  induction x as [| c x IH]; simpl; [reflexivity |].
  intros H. apply orb_false_iff in H. destruct H as [Hc Hx].
  rewrite Hc, (IH Hx). reflexivity.
Qed.

Lemma split_app_sep x s :
  has_sep x = false -> split (x ++ String sep s) = x :: split s.
Proof.
  induction x as [| c x IH]; simpl.
  - intros _. reflexivity.
  - intros H. apply orb_false_iff in H. destruct H as [Hc Hx].
    rewrite Hc, (IH Hx). reflexivity.
Qed.

Lemma valid_name_no_sep x : valid_name x = true -> has_sep x = false.
Proof.
  unfold valid_name. intros H. apply andb_true_iff in H.
  destruct H as [_ H]. now apply negb_true_iff in H.
Qed.

Lemma valid_name_head x :
  valid_name x = true ->
  exists c x', x = String c x' /\ Ascii.eqb c sep = false.
Proof.
  intros H. pose proof (valid_name_no_sep x H) as Hs.
  destruct x as [| c x']; [discriminate |].
  simpl in Hs. apply orb_false_iff in Hs. exists c, x'. tauto.
Qed.

Lemma join_cons x y r :
  join "/" (x :: y :: r) = (x ++ String sep (join "/" (y :: r)))%string.
Proof. reflexivity. Qed.

Lemma split_join l :
  l <> [] -> forallb valid_name l = true -> split (join "/" l) = l.
Proof.
  induction l as [| x l IH]; [congruence |]. intros _ H.
  simpl in H. apply andb_true_iff in H. destruct H as [Hx Hl].
  destruct l as [| y r].
  - simpl. apply split_no_sep. now apply valid_name_no_sep.
  - rewrite join_cons, split_app_sep by now apply valid_name_no_sep.
    f_equal. apply IH; [discriminate | exact Hl].
Qed.

Lemma filter_valid l :
  forallb valid_name l = true ->
  filter (fun x => truthy x && negb (String.eqb x ".")) l = l.
Proof.
  induction l as [| x l IH]; [reflexivity |]. simpl. intros H.
  apply andb_true_iff in H. destruct H as [Hx Hl].
  unfold valid_name in Hx. apply andb_true_iff in Hx. destruct Hx as [Hx _].
  rewrite Hx, (IH Hl). reflexivity.
Qed.

Lemma join_head x r :
  valid_name x = true ->
  exists c rest, join "/" (x :: r) = String c rest /\ Ascii.eqb c sep = false.
Proof.
  intros H. destruct (valid_name_head x H) as (c & x' & -> & Hc).
  destruct r as [| y r]; [now exists c, x' |].
  rewrite join_cons. simpl. eauto.
Qed.

(** Parsing the relative string made of file names gives the names. *)
Lemma parse_join l :
  forallb valid_name l = true -> parse_path (join "/" l) = l.
Proof.
  intros H. destruct l as [| x r]; [reflexivity |].
  pose proof H as H'. simpl in H'. apply andb_true_iff in H'.
  destruct H' as [Hx _].
  destruct (join_head x r Hx) as (c & rest & E & Hc).
  unfold parse_path, splitroot. rewrite E, Hc. rewrite <- E.
  rewrite split_join by (discriminate || assumption).
  simpl truthy. cbv iota. now apply filter_valid.
Qed.

Lemma lstrip_join l :
  forallb valid_name l = true -> lstrip (join "/" l) = join "/" l.
Proof.
  intros H. destruct l as [| x r]; [reflexivity |].
  simpl in H. apply andb_true_iff in H. destruct H as [Hx _].
  destruct (join_head x r Hx) as (c & rest & -> & Hc).
  simpl. now rewrite Hc.
Qed.

Lemma parse_rooted l :
  forallb valid_name l = true ->
  parse_path (String sep (join "/" l)) = "/"%string :: l.
Proof.
  intros H. unfold parse_path, splitroot.
  replace (Ascii.eqb sep sep) with true by reflexivity.
  cbn [lstrip]. replace (Ascii.eqb sep sep) with true by reflexivity.
  rewrite (lstrip_join l H).
  change (String.length (String sep (join "/" l)))
    with (S (String.length (join "/" l))).
  replace (S (String.length (join "/" l))
           - String.length (join "/" l))%nat with 1%nat by lia.
  simpl Nat.eqb. cbv iota. simpl truthy. cbv iota. f_equal.
  destruct l as [| x r]; [reflexivity |].
  rewrite split_join by (discriminate || assumption).
  now apply filter_valid.
Qed.

Lemma valid_name_not_root x : valid_name x = true -> String.eqb x "/" = false.
Proof.
  intros H. destruct (String.eqb x "/") eqn:E; [| reflexivity].
  apply String.eqb_eq in E. subst. discriminate.
Qed.

Lemma parse_path_str p :
  wf_path p = true -> parse_path (path_str p) = p.
Proof.
  destruct p as [| x r]; [reflexivity |].
  unfold wf_path. intros H. apply andb_true_iff in H. destruct H as [Hx Hr].
  unfold path_str. destruct (String.eqb x "/") eqn:E.
  - apply String.eqb_eq in E. subst x. now apply parse_rooted.
  - simpl in Hx. apply parse_join. simpl. now rewrite Hx, Hr.
Qed.

(** X9. A path made of a root "/" or none and of file names is recovered
    from its string: [Path(str(p))] has the parts of [p], and so the same
    string again.  This is what lets the stream route find the file a
    record was made from. *)
Theorem path_of_its_string p :
  wf_path p = true ->
  parse_path (path_str p) = p /\
  path_str (parse_path (path_str p)) = path_str p.
Proof.
  intros H. rewrite (parse_path_str p H). split; reflexivity.
Qed.

Lemma path_of_its_string_witness :
  wf_path Sample.b_ogg = true /\
  parse_path "/media/music/sub/b.OGG" = Sample.b_ogg.
Proof.
  split; [reflexivity |].
  exact (proj1 (path_of_its_string Sample.b_ogg eq_refl)).
Defined.

(** ** Well-formed trees *)

Lemma rglob_node_names :
  forall n base p,
    wf_node n = true -> In p (rglob_node base n) ->
    exists r, p = (base ++ r)%list /\ r <> [] /\ forallb valid_name r = true.
Proof.
  fix IH 1. intros [sz parsed | sz es] base p; simpl.
  - intros _ [].
  - intros Hwf. rewrite in_app_iff. intros [H | H].
    + apply in_map_iff in H. destruct H as ([k c] & <- & Hin).
      exists [k]. split; [reflexivity |]. split; [discriminate |].
      simpl. rewrite andb_true_r.
      revert Hwf Hin. induction es as [| [k' c'] es IHes]; simpl;
        [intros _ [] |].
      intros Hwf [Heq | Hin].
      * injection Heq as -> ->.
        apply andb_true_iff in Hwf. destruct Hwf as [Hwf _].
        apply andb_true_iff in Hwf. tauto.
      * apply andb_true_iff in Hwf. destruct Hwf as [_ Hwf]. auto.
    + revert Hwf H. induction es as [| [k c] es IHes]; simpl.
      * intros _ [].
      * intros Hwf. apply andb_true_iff in Hwf. destruct Hwf as [Hkc Hes].
        apply andb_true_iff in Hkc. destruct Hkc as [Hk Hc].
        rewrite in_app_iff. intros [H | H]; [| exact (IHes Hes H)].
        destruct (IH c (base ++ [k])%list p Hc H) as (r & -> & _ & Hr).
        exists (k :: r). split; [now rewrite <- app_assoc |].
        split; [discriminate |]. simpl. now rewrite Hk, Hr.
Qed.

Lemma walk_wf :
  forall p n m, wf_node n = true -> walk p n = Some m -> wf_node m = true.
Proof.
  induction p as [| x r IH]; intros n m Hwf; simpl.
  - now intros [= <-].
  - destruct n as [sz parsed | sz es]; [discriminate |].
    simpl in Hwf. revert Hwf.
    induction es as [| [k c] es IHes]; simpl; [discriminate |].
    intros Hwf. apply andb_true_iff in Hwf. destruct Hwf as [Hkc Hes].
    apply andb_true_iff in Hkc. destruct Hkc as [_ Hc].
    destruct (String.eqb k x); [now apply IH | now apply IHes].
Qed.

Lemma resolve_wf fs p n :
  wf_fs fs = true -> resolve fs p = Some n -> wf_node n = true.
Proof.
  unfold wf_fs, resolve. intros H. apply andb_true_iff in H.
  destruct H as [Hroot Hcwd].
  destruct p as [| x r]; [now intros [= <-] |].
  destruct (String.eqb x "/"); now apply walk_wf.
Qed.

Lemma wf_path_app d r :
  wf_path d = true -> forallb valid_name r = true -> wf_path (d ++ r) = true.
Proof.
  intros Hd Hr. destruct d as [| x d]; simpl.
  - destruct r as [| y r]; [reflexivity |]. simpl in *.
    apply andb_true_iff in Hr. destruct Hr as [-> ->].
    now rewrite orb_true_r.
  - simpl in Hd. apply andb_true_iff in Hd. destruct Hd as [-> Hd].
    simpl. rewrite forallb_app. now rewrite Hd, Hr.
Qed.

Lemma rglob_names fs d p :
  wf_fs fs = true -> In p (rglob fs d) ->
  exists r, p = (d ++ r)%list /\ r <> [] /\ forallb valid_name r = true.
Proof.
  unfold rglob. intros Hwf.
  destruct (resolve fs d) as [n |] eqn:E; [| intros []].
  apply rglob_node_names. now apply resolve_wf with fs d.
Qed.

Lemma rglob_wf_path fs d p :
  wf_fs fs = true -> wf_path d = true -> In p (rglob fs d) ->
  wf_path p = true.
Proof.
  intros Hwf Hd Hp. destruct (rglob_names fs d p Hwf Hp) as (r & -> & _ & Hr).
  now apply wf_path_app.
Qed.

(** ** Streaming *)

Lemma find_exists {A} (f : A -> bool) l x :
  In x l -> f x = true -> exists y, find f l = Some y.
Proof.
  induction l as [| a l IH]; simpl; [intros [] |].
  intros [-> | H] Hx.
  - rewrite Hx. eauto.
  - destruct (f a); eauto.
Qed.

Lemma NoDup_map_eq {A B} (f : A -> B) l x y :
  NoDup (map f l) -> In x l -> In y l -> f x = f y -> x = y.
Proof.
  induction l as [| a l IH]; simpl; [intros _ [] |].
  intros Hnd. apply NoDup_cons_iff in Hnd. destruct Hnd as [Hna Hnd].
  intros [-> | Hx] [-> | Hy] E; auto.
  - elim Hna. rewrite E. now apply in_map.
  - elim Hna. rewrite <- E. now apply in_map.
Qed.

Lemma mimetype_not_empty (g : option string) :
  match g with
  | Some m => if truthy m then m else "audio/mpeg"%string
  | None => "audio/mpeg"%string
  end <> EmptyString.
Proof.
  destruct g as [[| c m] |]; simpl; discriminate.
Qed.

(** X10. [stream_track] answers "unknown" exactly when no track of the
    catalog has the requested id.  Whatever the request, a file it sends
    is the file of a track of the catalog that has the requested id and
    whose path exists; it is sent inline, with conditional requests on,
    under a mimetype that is never empty ("audio/mpeg" when none is
    guessed). *)
Theorem stream_track_serves_catalog_only guess_type fs track_id st :
  (stream_track guess_type fs track_id st = NotFound FileUnknown <->
   forall t, In t (music_library st) -> Track.id t <> track_id) /\
  (stream_track guess_type fs track_id st = NotFound FileDeleted ->
   exists t,
     In t (music_library st) /\ Track.id t = track_id /\
     path_exists fs (parse_path (Track.path t)) = false) /\
  (forall file mimetype as_attachment conditional,
      stream_track guess_type fs track_id st
      = SendFile file mimetype as_attachment conditional ->
      exists t,
        In t (music_library st) /\ Track.id t = track_id /\
        file = path_str (parse_path (Track.path t)) /\
        path_exists fs (parse_path (Track.path t)) = true /\
        mimetype <> EmptyString /\
        as_attachment = false /\ conditional = true /\
        mimetype = match guess_type file with
                   | Some m => if truthy m then m else "audio/mpeg"%string
                   | None => "audio/mpeg"%string
                   end).
Proof.
  unfold stream_track.
  destruct (find (fun t => String.eqb (Track.id t) track_id)
                 (music_library st)) as [t |] eqn:E.
  - apply find_some in E. destruct E as [Hin Hid].
    apply String.eqb_eq in Hid.
    destruct (path_exists fs (parse_path (Track.path t))) eqn:Ex; simpl.
    + split; [| split].
      * split; [discriminate |]. intros H. now elim (H t Hin).
      * discriminate.
      * intros file m a c [= <- <- <- <-]. exists t.
        repeat split; try assumption. apply mimetype_not_empty.
    + split; [| split].
      * split; [discriminate |]. intros H. now elim (H t Hin).
      * intros _. now exists t.
      * discriminate.
  - split; [| split]; try discriminate.
    split; [| reflexivity]. intros _ t Hin Hid.
    pose proof (find_none _ _ E t Hin) as Hf. simpl in Hf.
    apply String.eqb_neq in Hf. contradiction.
Qed.

Lemma stream_after_scan guess_type MUSIC_DIR fs d tracks log t :
  wf_fs fs = true ->
  wf_path d = true ->
  scan_directory MUSIC_DIR fs d [] = (Ret tracks, log) ->
  In t tracks ->
  exists t0 mimetype,
    In t0 tracks /\ Track.id t0 = Track.id t /\
    stream_track guess_type fs (Track.id t) (mkServer tracks)
    = SendFile (Track.path t0) mimetype false true /\
    (NoDup (map Track.id tracks) -> t0 = t) /\
    find (fun x => String.eqb (Track.id x) (Track.id t)) tracks = Some t0.
Proof.
  intros Hwf Hd Hscan Hin.
  destruct (find_exists (fun x => String.eqb (Track.id x) (Track.id t))
                        tracks t Hin (String.eqb_refl _)) as [t0 Hfind].
  pose proof (find_some _ _ Hfind) as [Hin0 Hid0].
  apply String.eqb_eq in Hid0.
  destruct (scanned_from_file _ _ _ _ _ _ _ Hscan Hin0)
    as (p & Hp & _ & Ht0).
  apply extracted_some in Ht0.
  destruct Ht0 as (oa & st & dur & n & _ & _ & _ & Hst & Ht0).
  assert (Hpath : Track.path t0 = path_str p) by (now subst t0).
  pose proof (rglob_wf_path fs d p Hwf Hd Hp) as Hwp.
  eexists t0, _. split; [exact Hin0 |]. split; [exact Hid0 |].
  split; [| split; [| exact Hfind]].
  - unfold stream_track. cbn [music_library]. rewrite Hfind, Hpath.
    rewrite (parse_path_str p Hwp).
    rewrite (stat_size_exists fs p n Hst). reflexivity.
  - intros Hnd. now apply (NoDup_map_eq Track.id tracks).
Qed.

(** X11. While the file system is as it was scanned, no track of the
    catalog answers 404: streaming the id of a track sends the file at
    the path of the first track of the catalog with that id, which is the
    track itself when the ids of the catalog are distinct.  The file
    system is assumed to hold file names only, and the scanned directory
    to be a path with the root "/" or none. *)
Theorem scanned_tracks_can_be_streamed guess_type MUSIC_DIR fs d tracks log t :
  wf_fs fs = true ->
  wf_path d = true ->
  scan_directory MUSIC_DIR fs d [] = (Ret tracks, log) ->
  In t tracks ->
  exists t0 mimetype,
    In t0 tracks /\ Track.id t0 = Track.id t /\
    stream_track guess_type fs (Track.id t) (mkServer tracks)
    = SendFile (Track.path t0) mimetype false true /\
    (NoDup (map Track.id tracks) -> t0 = t) /\
    find (fun x => String.eqb (Track.id x) (Track.id t)) tracks = Some t0.
Proof. apply stream_after_scan. Qed.

Lemma scanned_tracks_stream_witness :
  exists tracks log t mimetype,
    scan_directory Sample.media_music Sample.disk Sample.media_music []
      = (Ret tracks, log) /\
    hd_error tracks = Some t /\
    stream_track (fun _ => None) Sample.disk (Track.id t) (mkServer tracks)
    = SendFile "/media/music/a.mp3" mimetype false true.
Proof.
  assert (H : exists tracks log t r,
             scan_directory Sample.media_music Sample.disk
               Sample.media_music [] = (Ret tracks, log) /\
             tracks = t :: r /\
             NoDup (map Track.id tracks) /\
             Track.path t = "/media/music/a.mp3"%string).
  { vm_compute. do 4 eexists. split; [reflexivity |].
    split; [reflexivity |]. split; [| reflexivity].
    repeat (constructor; [simpl; intuition discriminate |]). constructor. }
  destruct H as (tracks & log & t & r & Hscan & Hl & Hnd & Hp).
  assert (Hin : In t tracks) by (rewrite Hl; now left).
  destruct (scanned_tracks_can_be_streamed (fun _ => None)
              Sample.media_music Sample.disk Sample.media_music
              tracks log t eq_refl eq_refl Hscan Hin)
    as (t0 & m & _ & _ & Hs & Heq & _).
  rewrite (Heq Hnd), Hp in Hs.
  exists tracks, log, t, m. split; [exact Hscan |].
  split; [rewrite Hl; reflexivity | exact Hs].
Defined.

(** ** Tags that cannot make the extraction fail *)

(** X12. For a file object of class MP3, MP4 or FLAC under MUSIC_DIR whose
    path string encodes (as all strings of this development do) and whose
    stat succeeds, the extraction yields a record, whatever the tags
    hold.  Under the fixed key of a field, a non-empty list gives its
    first element, an empty list gives the text "[]" (the [str] of the
    list, not the placeholder), and any other value gives its [str]; an
    empty string so obtained gives way to the placeholder. *)
Theorem named_tags_never_fail MUSIC_DIR fs p audio n :
  mutagen_File fs p = Ret (Some audio) ->
  kind audio <> Other ->
  is_relative_to p MUSIC_DIR = true ->
  stat_size fs p = Ret n ->
  exists t,
    run (_extract_track_info MUSIC_DIR fs p) = Ret (Some t) /\
    forall f,
      match dict_get (fixed_key (kind audio) f) (tag_items audio) with
      | Some (VList []) => get f t = "[]"%string
      | Some (VList (x :: _)) =>
          get f t = if truthy x then x else placeholder p f
      | Some (VObj s) => get f t = if truthy s then s else placeholder p f
      | None => get f t = placeholder p f
      end.
Proof.
  intros Hm Hk Hrel Hst.
  destruct (read_tags_named audio (placeholders p) Hk) as (st & Hr & Hn).
  set (t := record_of MUSIC_DIR p st (read_duration audio 0%Q) n).
  assert (Ht : extracted MUSIC_DIR fs p = Some t).
  { apply extracted_some.
    exists (Some audio), st, (read_duration audio 0%Q), n.
    repeat split; assumption. }
  exists t. split; [rewrite run_extract; now f_equal |].
  intros f. unfold t. rewrite get_record_of, Hn.
  destruct (dict_get (fixed_key (kind audio) f) (tag_items audio))
    as [[[| x r] | s] |]; reflexivity.
Qed.

Lemma named_tags_witness :
  exists t,
    run (_extract_track_info Sample.media_music Sample.disk Sample.t2_flac)
      = Ret (Some t) /\
    get FTitle t = "Track 2"%string.
Proof.
  destruct (named_tags_never_fail Sample.media_music Sample.disk
              Sample.t2_flac Sample.track_2 9%N
              eq_refl ltac:(discriminate) eq_refl eq_refl)
    as (t & Hrun & Hf).
  exists t. split; [exact Hrun |]. exact (Hf FTitle).
Defined.

(** ** One field per key in the scan of all keys *)

Lemma last_match_none f items :
  (forall kv, In kv items -> taken_for f (fst kv) = false) ->
  last_match f items = None.
Proof.
  induction items as [| kv rest IH]; intros H; [reflexivity |].
  simpl. rewrite IH by (intros x Hx; apply H; now right).
  now rewrite (H kv (or_introl eq_refl)).
Qed.

Lemma taken_for_artist k :
  taken_for FArtist k = negb (key_matches FTitle k) && key_matches FArtist k.
Proof.
  unfold taken_for, field_of_key.
  destruct (key_matches FTitle k); [reflexivity |].
  destruct (key_matches FArtist k); [reflexivity |].
  destruct (key_matches FAlbum k); reflexivity.
Qed.

Lemma taken_for_album k :
  taken_for FAlbum k =
  negb (key_matches FTitle k) && negb (key_matches FArtist k)
  && key_matches FAlbum k.
Proof.
  unfold taken_for, field_of_key.
  destruct (key_matches FTitle k); [reflexivity |].
  destruct (key_matches FArtist k); [reflexivity |].
  destruct (key_matches FAlbum k); reflexivity.
Qed.

(** X13. In the scan of all keys a key serves one field only, the first of
    title, artist and album whose substring it contains.  So when every
    key that contains "album" also contains "title" or "artist" (as
    "albumartist" does), the album stays "Unknown Album"; and when every
    key that contains "artist" also contains "title", the artist stays
    "Unknown Artist". *)
Theorem generic_key_serves_one_field MUSIC_DIR fs p audio t :
  mutagen_File fs p = Ret (Some audio) ->
  kind audio = Other ->
  run (_extract_track_info MUSIC_DIR fs p) = Ret (Some t) ->
  ((forall k v, In (k, v) (tag_items audio) ->
                key_matches FAlbum k = true ->
                key_matches FTitle k = true \/ key_matches FArtist k = true)
   -> Track.album t = "Unknown Album"%string) /\
  ((forall k v, In (k, v) (tag_items audio) ->
                key_matches FArtist k = true -> key_matches FTitle k = true)
   -> Track.artist t = "Unknown Artist"%string).
Proof.
  intros Hm Hk Hrun. rewrite run_extract in Hrun. injection Hrun as Ht.
  destruct (extracted_read_tags _ _ _ _ _ Hm Ht) as (st & Hr & Hget).
  rewrite read_tags_other in Hr by exact Hk.
  split; intros H.
  - pose proof (generic_loop_ret _ _ _ FAlbum Hr) as Hl.
    rewrite last_match_none in Hl.
    + change (get FAlbum t = "Unknown Album"%string).
      rewrite Hget. exact Hl.
    + intros [k v] Hin. simpl. rewrite taken_for_album.
      destruct (key_matches FAlbum k) eqn:Ea;
        [| now rewrite andb_false_r].
      destruct (H k v Hin Ea) as [-> | ->]; simpl;
        [reflexivity | now rewrite andb_false_r].
  - pose proof (generic_loop_ret _ _ _ FArtist Hr) as Hl.
    rewrite last_match_none in Hl.
    + change (get FArtist t = "Unknown Artist"%string).
      rewrite Hget. exact Hl.
    + intros [k v] Hin. simpl. rewrite taken_for_artist.
      destruct (key_matches FArtist k) eqn:Ea;
        [| now rewrite andb_false_r].
      now rewrite (H k v Hin Ea).
Qed.

Lemma generic_key_witness :
  exists t,
    run (_extract_track_info Sample.media_music Sample.disk Sample.b_ogg)
      = Ret (Some t) /\
    key_matches FAlbum "ALBUMARTIST" = true /\
    Track.artist t = "Band"%string /\
    Track.album t = "Unknown Album"%string.
Proof.
  assert (H : exists t,
             run (_extract_track_info Sample.media_music Sample.disk
                    Sample.b_ogg) = Ret (Some t) /\
             Track.artist t = "Band"%string)
    by (vm_compute; eexists; split; reflexivity).
  destruct H as (t & Hrun & Ha). exists t.
  split; [exact Hrun |]. split; [reflexivity |]. split; [exact Ha |].
  apply (proj1 (generic_key_serves_one_field
                  Sample.media_music Sample.disk Sample.b_ogg
                  Sample.vorbis t eq_refl eq_refl Hrun)).
  intros k v Hin Hal. simpl in Hin.
  destruct Hin as [[= <- <-] | [[= <- <-] | [[= <- <-] | []]]];
    try discriminate.
  now right.
Defined.

(** ** The path and the relative path *)

Lemma append_assoc (a b c : string) :
  ((a ++ b) ++ c)%string = (a ++ (b ++ c))%string.
Proof. induction a as [| x a IH]; simpl; congruence. Qed.

Lemma join_app l1 l2 :
  l1 <> [] -> l2 <> [] ->
  join "/" (l1 ++ l2) = (join "/" l1 ++ "/" ++ join "/" l2)%string.
Proof.
  intros H1 H2. induction l1 as [| x l1 IH]; [congruence |].
  destruct l1 as [| y l1].
  - destruct l2 as [| z l2]; [congruence |]. reflexivity.
  - change ((x :: y :: l1) ++ l2)%list with (x :: y :: (l1 ++ l2))%list.
    rewrite !join_cons.
    change (y :: (l1 ++ l2))%list with ((y :: l1) ++ l2)%list.
    rewrite IH by discriminate.
    now rewrite append_assoc.
Qed.

Lemma skipn_own_length {A} (l r : list A) :
  skipn (List.length l) (l ++ r) = r.
Proof. induction l as [| x l IH]; [reflexivity | exact IH]. Qed.

(** X14. In the catalog [scan_library] builds, the path of a record is
    MUSIC_DIR joined with the record's relative path by one slash (for
    the root directory, the slash of the root itself), and the relative
    path is never ".".  The file system is assumed to hold file names
    only. *)
Theorem catalog_path_is_music_dir_joined MUSIC_DIR fs st lib total log t :
  wf_fs fs = true ->
  MUSIC_DIR <> [] ->
  scan_library MUSIC_DIR fs st [] = (Ret (mkServer lib, total), log) ->
  In t lib ->
  Track.path t
  = (directory_prefix MUSIC_DIR ++ Track.relative_path t)%string /\
  Track.relative_path t <> "."%string.
Proof.
  intros Hwf Hne Hscan Hin.
  unfold scan_library, bind in Hscan.
  destruct (scan_directory MUSIC_DIR fs MUSIC_DIR []) as [[tracks | e] l1]
    eqn:Es; [| discriminate].
  unfold ret in Hscan. injection Hscan as <- _ _.
  destruct (scanned_from_file _ _ _ _ _ _ _ Es Hin) as (p & Hp & _ & Ht).
  apply extracted_some in Ht.
  destruct Ht as (oa & st0 & dur & n & _ & _ & _ & _ & ->).
  destruct (rglob_names fs MUSIC_DIR p Hwf Hp) as (r & -> & Hr & Hv).
  unfold record_of. cbn [Track.path Track.relative_path].
  rewrite skipn_own_length.
  destruct r as [| y r]; [congruence |].
  pose proof Hv as Hv'. simpl in Hv'. apply andb_true_iff in Hv'.
  destruct Hv' as [Hy _].
  assert (Hrel : path_str (y :: r) = join "/" (y :: r)).
  { unfold path_str. now rewrite (valid_name_not_root y Hy). }
  rewrite Hrel. split.
  - destruct MUSIC_DIR as [| x m]; [congruence |].
    unfold directory_prefix, path_str. cbn [app].
    change (x :: m ++ y :: r)%list with ((x :: m) ++ y :: r)%list.
    destruct (String.eqb x "/") eqn:Ex.
    + destruct m as [| z m]; [reflexivity |].
      change ((x :: z :: m) ++ y :: r)%list
        with (x :: ((z :: m) ++ y :: r))%list.
      cbv iota. rewrite join_app by discriminate.
      now rewrite !append_assoc.
    + rewrite join_app by discriminate.
      destruct m as [| z m]; [simpl; now rewrite append_assoc |].
      now rewrite !append_assoc.
  - destruct (valid_name_head y Hy) as (c & y' & -> & Hc).
    destruct r as [| z r].
    + simpl. intros [= -> ->]. discriminate.
    + rewrite join_cons. simpl. intros [= -> E].
      destruct y'; discriminate.
Qed.

Lemma catalog_path_witness :
  exists lib total log t,
    scan_library Sample.media_music Sample.disk (mkServer []) []
      = (Ret (mkServer lib, total), log) /\
    nth_error lib 4 = Some t /\
    Track.relative_path t = "sub/b.OGG"%string /\
    Track.path t = ("/media/music/" ++ Track.relative_path t)%string.
Proof.
  assert (H : exists lib total log t,
             scan_library Sample.media_music Sample.disk (mkServer []) []
               = (Ret (mkServer lib, total), log) /\
             nth_error lib 4 = Some t /\
             Track.relative_path t = "sub/b.OGG"%string)
    by (vm_compute; do 4 eexists; repeat split; reflexivity).
  destruct H as (lib & total & log & t & Hscan & Hn & Hr).
  exists lib, total, log, t. repeat (split; [assumption |]).
  exact (proj1 (catalog_path_is_music_dir_joined
                  Sample.media_music Sample.disk (mkServer [])
                  lib total log t eq_refl ltac:(discriminate) Hscan
                  (nth_error_In _ _ Hn))).
Defined.

(** ** From a rescan to the list and to the streams *)

(** X15. After [scan_library], [get_library] lists the records of the
    supported files below MUSIC_DIR whose extraction succeeds, with the
    total that [scan_library] answered; a search without a query returns
    the same list; and, while the file system is as it was scanned, the
    stream route sends a file for the id of every listed track.  The file
    system is assumed to hold file names only, and MUSIC_DIR to be a path
    with the root "/" or none. *)
Theorem rescan_then_list_then_stream guess_type MUSIC_DIR fs st st' total log :
  wf_fs fs = true ->
  wf_path MUSIC_DIR = true ->
  scan_library MUSIC_DIR fs st [] = (Ret (st', total), log) ->
  get_library st' = (successes MUSIC_DIR fs (rglob fs MUSIC_DIR), total) /\
  search_tracks None st' = fst (get_library st') /\
  forall t,
    In t (fst (get_library st')) ->
    exists file mimetype,
      stream_track guess_type fs (Track.id t) st'
      = SendFile file mimetype false true.
Proof.
  intros Hwf Hd Hscan. unfold scan_library, bind in Hscan.
  destruct (scan_directory MUSIC_DIR fs MUSIC_DIR []) as [[tracks | e] l1]
    eqn:Es; [| discriminate].
  unfold ret in Hscan. injection Hscan as <- <- _.
  destruct (scan_directory_run MUSIC_DIR fs MUSIC_DIR []) as [l2 Hrun].
  rewrite Hrun in Es. injection Es as <- _.
  split; [reflexivity |]. split; [reflexivity |].
  intros t Hin. cbn [get_library fst music_library] in Hin.
  destruct (stream_after_scan guess_type MUSIC_DIR fs MUSIC_DIR _ _ t
              Hwf Hd Hrun Hin) as (t0 & m & _ & _ & Hs & _ & _).
  eauto.
Qed.

Lemma rescan_witness :
  exists st' total log,
    scan_library Sample.media_music Sample.disk (mkServer []) []
      = (Ret (st', total), log) /\
    total = 6%nat /\
    snd (get_library st') = 6%nat.
Proof.
  assert (H : exists st' total log,
             scan_library Sample.media_music Sample.disk (mkServer []) []
               = (Ret (st', total), log) /\ total = 6%nat)
    by (vm_compute; do 3 eexists; split; reflexivity).
  destruct H as (st' & total & log & Hscan & Ht).
  exists st', total, log. split; [exact Hscan |]. split; [exact Ht |].
  rewrite (proj1 (rescan_then_list_then_stream (fun _ => None)
                    Sample.media_music Sample.disk (mkServer [])
                    st' total log eq_refl eq_refl Hscan)).
  exact Ht.
Defined.

(** ** The tag helpers *)

(** X16. A tag helper returns None exactly when the key is not among the
    tags, which covers tags that are None or empty; for a key that is
    present it always returns a string.  The MP4 helper is the ID3 helper,
    and the Vorbis helper is the ID3 helper on the upper-cased key. *)
Theorem tag_helpers_none_iff_key_missing audio key :
  (_get_id3_tag audio key = None <->
   dict_get key (tag_items audio) = None) /\
  (tags audio = None -> _get_id3_tag audio key = None) /\
  (forall value,
      dict_get key (tag_items audio) = Some value ->
      _get_id3_tag audio key = Some (first_or_str value)) /\
  _get_mp4_tag audio key = _get_id3_tag audio key /\
  _get_vorbis_tag audio key = _get_id3_tag audio (upper key).
Proof.
  rewrite get_vorbis_tag_lookup, get_mp4_tag_lookup, !get_id3_tag_lookup.
  split; [| split; [| split; [| split; reflexivity]]].
  - destruct (dict_get key (tag_items audio)); simpl; split; congruence.
  - unfold tag_items. now intros ->.
  - now intros value ->.
Qed.
